(** * SpecterApp: the upload, normalise and history logic of [App.js]

    A shallow embedding of the React Native component [App] of [src/App.js]:
    JavaScript values, the asynchronous handlers [handlePickImage] and
    [uploadFile] as programs with explicit suspension points, the React state
    cells they write, and the properties of the upload pipeline. *)

From stdpp Require Import gmap strings list fin_maps pretty.

Set Warnings "-register-all".
Open Scope string_scope.

(** ** JavaScript values *)

(** A JavaScript number is identified by the text [Number.prototype.toString]
    prints for it ("1024", "0.5", "NaN"); the program never does arithmetic
    on the numbers of a payload, it only tests them for truthiness and
    prints them.  [-0] prints as "0". *)
Definition Number := string.

(** Values as [JSON.parse] and the program build them.  An object is a
    finite map from own property names to values; a property may hold
    [JUndefined], which is different from the property being absent. *)
Inductive JsValue : Type :=
| JUndefined
| JNull
| JBool (b : bool)
| JNum (n : Number)
| JStr (s : string)
| JArr (items : list JsValue)
| JObj (props : gmap string JsValue).

(** What the program throws and catches: [Error] objects, read through
    their [message]. *)
Record JsError := Error { message : string }.

(** ToBoolean. *)
Definition truthy (v : JsValue) : bool :=
  match v with
  | JUndefined | JNull => false
  | JBool b => b
  | JNum n => negb (String.eqb n "0" || String.eqb n "NaN")
  | JStr s => negb (String.eqb s "")
  | JArr _ | JObj _ => true
  end.

(** [a || b] on values (both operands of every [||] of the program are
    side-effect free, so evaluating [b] eagerly changes nothing). *)
Definition or_else (a b : JsValue) : JsValue := if truthy a then a else b.
Infix "|||" := or_else (at level 50, left associativity).

Definition nullish (v : JsValue) : bool :=
  match v with JUndefined | JNull => true | _ => false end.

(** The [TypeError] of a conversion to a primitive value that finds
    neither a callable [toString] nor a [valueOf] returning a primitive,
    in the wording of the Hermes engine. *)
Definition TypeError_toPrimitive : JsError :=
  Error "Cannot determine default value of object".

(** [String(v)], as [new Error(v)] applies it to its argument; [inr] is
    the [TypeError] the conversion throws.  A plain object prints through
    [Object.prototype.toString], unless an own property ["toString"]
    shadows it: the values of a parsed body are never callable, and
    [Object.prototype.valueOf] returns the object itself, so the
    conversion then throws.  An array prints through
    [Array.prototype.join], which converts the elements from left to
    right, [null] and [undefined] as the empty string. *)
Fixpoint ToString (v : JsValue) : string + JsError :=
  match v with
  | JUndefined => inl "undefined"
  | JNull => inl "null"
  | JBool true => inl "true"
  | JBool false => inl "false"
  | JNum n => inl n
  | JStr s => inl s
  | JArr items =>
      (fix join (l : list JsValue) : string + JsError :=
         match l with
         | [] => inl ""
         | [x] => if nullish x then inl "" else ToString x
         | x :: rest =>
             match (if nullish x then inl "" else ToString x) with
             | inl first =>
                 match join rest with
                 | inl others => inl (first ++ "," ++ others)
                 | inr e => inr e
                 end
             | inr e => inr e
             end
         end) items
  | JObj props =>
      match props !! "toString" with
      | Some _ => inr TypeError_toPrimitive
      | None => inl "[object Object]"
      end
  end.

(** [new Error(message)]: the message is converted with [String], and an
    [undefined] argument leaves the empty default message; [inr] is the
    [TypeError] of a conversion that throws. *)
Definition new_Error (msg : JsValue) : JsError + JsError :=
  match msg with
  | JUndefined => inl (Error "")
  | _ => match ToString msg with
         | inl text => inl (Error text)
         | inr e => inr e
         end
  end.

(** What [throw new Error(message)] throws: the error constructed, or the
    [TypeError] of the conversion. *)
Definition raised (msg : JsValue) : JsError :=
  match new_Error msg with inl e | inr e => e end.

(** The [TypeError] of reading property [k] of [null] or [undefined], in
    the wording of the Hermes engine. *)
Definition TypeError_read (v : JsValue) (k : string) : JsError :=
  Error ("Cannot read property '" ++ k ++ "' of "
         ++ match v with JNull => "null" | _ => "undefined" end).

(** Property read [v.k] for the property names this program reads
    (filename, file_size, detail, ...): none of them is defined on the
    prototypes of strings, numbers, booleans, arrays or plain objects, so
    only own properties of objects can answer. *)
Definition get (v : JsValue) (k : string) : JsValue + JsError :=
  match v with
  | JUndefined | JNull => inr (TypeError_read v k)
  | JObj props => inl (default JUndefined (props !! k))
  | _ => inl JUndefined
  end.

(** ** The platform: promises, the clock, the durable store *)

(** [config.js] *)
Definition API_BASE_URL : string := "http://192.168.100.35:8000".
Definition UPLOAD_ENDPOINT : string := API_BASE_URL ++ "/api/upload".

(** The [{ uri, name, type }] triple handed to [uploadFile]. *)
Record File := { uri : JsValue; name : JsValue; type : JsValue }.

(** [FormData] as the list of its appended parts. *)
Definition FormData := list (string * File).

(** What the program reads of a fetch [Response]. *)
Record Response := { ok : bool; status : Number }.

Record Permission := { granted : bool }.
Record Asset :=
  { asset_uri : JsValue; fileName : JsValue; asset_type : JsValue; mimeType : JsValue }.
(** [assets = None] stands for a result without a (truthy) [assets] field. *)
Record PickerResult := { canceled : bool; assets : option (list Asset) }.

(** Text kept by AsyncStorage: what [JSON.stringify] printed for a value
    (kept symbolic), or any other text. *)
Inductive Text :=
| JSON_stringify (v : JsValue)
| OtherText (s : string).

(** The two readings of the clock the program takes: the text of
    [Date.now().toString()] and of [new Date().toISOString()]. *)
Record Clock := { Date_now_toString : string; Date_toISOString : string }.

(** The asynchronous calls the program awaits, indexed by the type of the
    value each resolves to. *)
Inductive Promise : Type -> Type :=
| requestMediaLibraryPermissionsAsync : Promise Permission
| launchImageLibraryAsync : Promise PickerResult
| fetch (url : string) (body : FormData) : Promise Response
| Response_json (r : Response) : Promise JsValue
| AsyncStorage_setItem (key : string) (value : Text) : Promise unit.

(** ** React state and synchronous effects *)

(** The five [useState] cells of [App]. *)
Record AppState := {
  uploading : bool;
  progress : Z;
  error : JsValue;
  chat : JsValue;
  history : list JsValue
}.

(** [useState(false)], [useState(0)], [useState(null)], [useState(null)],
    [useState([])]. *)
Definition App_initial : AppState :=
  {| uploading := false; progress := 0; error := JNull; chat := JNull; history := [] |}.

(** Calls that return at once: the five state setters and the timer calls. *)
Inductive Effect :=
| setUploading (b : bool)
| setProgress (n : Z)
| setError (e : JsValue)
| setChat (c : JsValue)
| setHistory (h : list JsValue)
| clearInterval (interval : nat)
| setTimeout_resetProgress.

(** ** Programs: JavaScript code with throw, effects and awaits *)

Inductive Prog (A : Type) : Type :=
| Ret (a : A)
| Throw (e : JsError)
| Do (eff : Effect) (k : Prog A)
| SetInterval (k : nat -> Prog A)
| Now (k : Clock -> Prog A)
| Await {R : Type} (p : Promise R) (k : R + JsError -> Prog A).
Arguments Ret {A} a.
Arguments Throw {A} e.
Arguments Do {A} eff k.
Arguments SetInterval {A} k.
Arguments Now {A} k.
Arguments Await {A R} p k.

Fixpoint bind {A B} (m : Prog A) (f : A -> Prog B) : Prog B :=
  match m with
  | Ret a => f a
  | Throw e => Throw e
  | Do eff k => Do eff (bind k f)
  | SetInterval k => SetInterval (fun i => bind (k i) f)
  | Now k => Now (fun c => bind (k c) f)
  | Await p k => Await p (fun r => bind (k r) f)
  end.

#[global] Instance Prog_ret : MRet Prog := @Ret.
#[global] Instance Prog_bind : MBind Prog := fun A B f m => bind m f.

(** [try { m } catch (e) { h e }] *)
Fixpoint try_catch {A} (m : Prog A) (h : JsError -> Prog A) : Prog A :=
  match m with
  | Ret a => Ret a
  | Throw e => h e
  | Do eff k => Do eff (try_catch k h)
  | SetInterval k => SetInterval (fun i => try_catch (k i) h)
  | Now k => Now (fun c => try_catch (k c) h)
  | Await p k => Await p (fun r => try_catch (k r) h)
  end.

(** [try { m } finally { f }]: [f] runs on both exits, and the exit of [m]
    is kept when [f] completes. *)
Fixpoint finally {A} (m : Prog A) (f : Prog unit) : Prog A :=
  match m with
  | Ret a => bind f (fun _ => Ret a)
  | Throw e => bind f (fun _ => Throw e)
  | Do eff k => Do eff (finally k f)
  | SetInterval k => SetInterval (fun i => finally (k i) f)
  | Now k => Now (fun c => finally (k c) f)
  | Await p k => Await p (fun r => finally (k r) f)
  end.

Definition call (eff : Effect) : Prog unit := Do eff (Ret tt).

(** [await p]: the value [p] resolves to, or the rejection thrown. *)
Definition await {R} (p : Promise R) : Prog R :=
  Await p (fun r => match r with inl v => Ret v | inr e => Throw e end).

(** An expression that evaluates to a value or throws. *)
Definition evaluate {A} (r : A + JsError) : Prog A :=
  match r with inl a => Ret a | inr e => Throw e end.

(** A property read inside a program: throws on [null] and [undefined]. *)
Definition read (v : JsValue) (k : string) : Prog JsValue :=
  match get v k with inl x => Ret x | inr e => Throw e end.

(** ** Running a program against the platform *)

(** What has been called so far, in program order. *)
Inductive Entry :=
| Did (eff : Effect)
| Called {R : Type} (p : Promise R).

Record World := {
  ui : AppState;                 (* the state cells of [App] *)
  storage : gmap string Text;    (* AsyncStorage *)
  intervals : gmap nat Z;        (* running intervals and their [current] *)
  next_interval : nat;
  pending_resets : nat;          (* armed [setTimeout(() => setProgress(0))] *)
  clock : Clock;
  journal : list Entry
}.

Definition log (e : Entry) (w : World) : World :=
  {| ui := ui w; storage := storage w; intervals := intervals w;
     next_interval := next_interval w; pending_resets := pending_resets w;
     clock := clock w; journal := journal w ++ [e] |}.

(** What a call does to the state cells: a setter replaces its cell. *)
Definition assign (eff : Effect) (s : AppState) : AppState :=
  match eff with
  | setUploading b =>
      {| uploading := b; progress := progress s; error := error s;
         chat := chat s; history := history s |}
  | setProgress n =>
      {| uploading := uploading s; progress := n; error := error s;
         chat := chat s; history := history s |}
  | setError e =>
      {| uploading := uploading s; progress := progress s; error := e;
         chat := chat s; history := history s |}
  | setChat c =>
      {| uploading := uploading s; progress := progress s; error := error s;
         chat := c; history := history s |}
  | setHistory h =>
      {| uploading := uploading s; progress := progress s; error := error s;
         chat := chat s; history := h |}
  | clearInterval _ | setTimeout_resetProgress => s
  end.

Definition update (eff : Effect) (w : World) : World :=
  {| ui := assign eff (ui w);
     storage := storage w;
     intervals :=
       match eff with
       | clearInterval i => delete i (intervals w)
       | _ => intervals w
       end;
     next_interval := next_interval w;
     pending_resets :=
       match eff with
       | setTimeout_resetProgress => S (pending_resets w)
       | _ => pending_resets w
       end;
     clock := clock w;
     journal := journal w |}.

Definition perform (eff : Effect) (w : World) : World := log (Did eff) (update eff w).

(** [setInterval] registers a fresh interval whose [current] starts at 0. *)
Definition start_interval (w : World) : World :=
  {| ui := ui w; storage := storage w;
     intervals := <[next_interval w := 0%Z]> (intervals w);
     next_interval := S (next_interval w); pending_resets := pending_resets w;
     clock := clock w; journal := journal w |}.

(** The platform's side of a settled promise: a resolved
    [AsyncStorage.setItem] has written the record. *)
Definition settle {R} (p : Promise R) (r : R + JsError) (w : World) : World :=
  match p, r with
  | AsyncStorage_setItem key value, inl _ =>
      {| ui := ui w; storage := <[key := value]> (storage w); intervals := intervals w;
         next_interval := next_interval w; pending_resets := pending_resets w;
         clock := clock w; journal := journal w |}
  | _, _ => w
  end.

(** How the platform answers: for each awaited call, not yet ([None]), a
    value, or a rejection. *)
Definition Oracle := forall R, Promise R -> option (R + JsError).

Inductive Exit (A : Type) : Type :=
| Returned (a : A)
| Thrown (e : JsError)
| Awaiting {R : Type} (p : Promise R) (k : R + JsError -> Prog A).
Arguments Returned {A} a.
Arguments Thrown {A} e.
Arguments Awaiting {A R} p k.

(** Run [m] until it returns, throws, or awaits a call the platform has not
    answered yet. *)
Fixpoint exec {A} (m : Prog A) (o : Oracle) (w : World) : Exit A * World :=
  match m with
  | Ret a => (Returned a, w)
  | Throw e => (Thrown e, w)
  | Do eff k => exec k o (perform eff w)
  | SetInterval k => exec (k (next_interval w)) o (start_interval w)
  | Now k => exec (k (clock w)) o w
  | Await p k =>
      let w1 := log (Called p) w in
      match o _ p with
      | None => (Awaiting p k, w1)
      | Some r => exec (k r) o (settle p r w1)
      end
  end.

(** The promise awaited by a suspended program settles with [r]. *)
Definition resume {A R} (p : Promise R) (k : R + JsError -> Prog A)
    (r : R + JsError) (o : Oracle) (w : World) : Exit A * World :=
  exec (k r) o (settle p r w).

(** ** The component [App] *)

(** [simulateProgress]: resets the bar and starts the 300 ms interval; its
    callback is [interval_fires] below. *)
Definition simulateProgress : Prog nat :=
  call (setProgress 0);;
  SetInterval (fun interval => Ret interval).

(** The callback of that interval: [current += 10], capped at 90 where the
    interval clears itself. *)
Definition interval_fires (interval : nat) (w : World) : World :=
  match intervals w !! interval with
  | None => w
  | Some current =>
      let current := (current + 10)%Z in
      if (90 <=? current)%Z
      then perform (setProgress 90) (perform (clearInterval interval) w)
      else
        perform (setProgress current)
          {| ui := ui w; storage := storage w;
             intervals := <[interval := current]> (intervals w);
             next_interval := next_interval w; pending_resets := pending_resets w;
             clock := clock w; journal := journal w |}
  end.

(** The callback of [setTimeout(() => setProgress(0), 1000)]. *)
Definition reset_fires (w : World) : World :=
  match pending_resets w with
  | O => w
  | S n =>
      perform (setProgress 0)
        {| ui := ui w; storage := storage w; intervals := intervals w;
           next_interval := next_interval w; pending_resets := n;
           clock := clock w; journal := journal w |}
  end.

(** The object literal [mappedChat] of [uploadFile], built from the parsed
    response body [data]. *)
Definition mappedChat (data : JsValue) : Prog JsValue :=
  Now (fun now =>
  filename ← read data "filename";
  file_size ← read data "file_size";
  original_text ← read data "original_text";
  originalText ← (if truthy original_text then Ret original_text
                  else read data "raw_urdu_text");
  corrected_text ← read data "corrected_text";
  correctedText ← (if truthy corrected_text then Ret corrected_text
                   else read data "corrected_urdu_text");
  raw_urdu_text ← read data "raw_urdu_text";
  fir_structured_data ← read data "fir_structured_data";
  extraction_type ← read data "extraction_type";
  corrections_applied ← read data "corrections_applied";
  correction_stats ← read data "correction_stats";
  Ret (JObj (list_to_map [
    ("id", JStr (Date_now_toString now));
    ("timestamp", JStr (Date_toISOString now));
    ("filename", filename);
    ("fileSize", file_size);
    ("originalText", originalText);
    ("correctedText", correctedText);
    ("rawUrduText", raw_urdu_text);
    ("firStructuredData", fir_structured_data);
    ("extractionType", extraction_type ||| JStr "text");
    ("correctionsApplied", corrections_applied);
    ("correctionStats", correction_stats ||| JObj ∅)
  ]))).

(** [[mappedChat, ...history].slice(0, 20)] *)
Definition nextHistory (mappedChat : JsValue) (history : list JsValue) : list JsValue :=
  take 20 (mappedChat :: history).

(** The message chosen in the [!response.ok] branch: the default, replaced
    by [errJson.detail] when [errJson && errJson.detail] is truthy; a
    rejected [response.json()] leaves the default. *)
Definition failure_message (response : Response) : Prog JsValue :=
  let message := JStr ("Upload failed with status " ++ status response) in
  try_catch
    (errJson ← await (Response_json response);
     detail ← (if truthy errJson then read errJson "detail" else Ret errJson);
     if truthy detail then Ret detail else Ret message)
    (fun _ => Ret message).

(** [uploadFile], as the arrow function created by a render whose [history]
    binding holds the given list. *)
Definition uploadFile (history : list JsValue) (file : File) : Prog unit :=
  call (setUploading true);;
  call (setError JNull);;
  call (setProgress 0);;
  progressInterval ← simulateProgress;
  finally
    (try_catch
       (let formData : FormData := [("file", file)] in
        response ← await (fetch UPLOAD_ENDPOINT formData);
        call (clearInterval progressInterval);;
        call (setProgress 100);;
        (if negb (ok response)
         then message ← failure_message response;
              error ← evaluate (new_Error message);
              Throw error
         else Ret tt);;
        data ← await (Response_json response);
        mappedChat ← mappedChat data;
        call (setChat mappedChat);;
        let nextHistory := nextHistory mappedChat history in
        call (setHistory nextHistory);;
        try_catch
          (await (AsyncStorage_setItem "specter_history"
                    (JSON_stringify (JArr nextHistory))))
          (fun _ => Ret tt))
       (fun e =>
          call (clearInterval progressInterval);;
          call (setError (JStr (message e) ||| JStr "Failed to process file"))))
    (call (setUploading false);;
     call setTimeout_resetProgress).

(** [handlePickImage], calling the [uploadFile] in its scope. *)
Definition handlePickImage (uploadFile : File -> Prog unit) : Prog unit :=
  call (setError JNull);;
  permission ← await requestMediaLibraryPermissionsAsync;
  if negb (granted permission)
  then call (setError (JStr "Permission to access media library is required."))
  else
    result ← await launchImageLibraryAsync;
    match canceled result, assets result with
    | false, Some (asset :: _) =>
        let name := fileName asset ||| JStr "fir_image.jpg" in
        let type :=
          match asset_type asset with
          | JStr "video" => JStr "video/*"
          | _ => mimeType asset ||| JStr "image/jpeg"
          end in
        uploadFile {| uri := asset_uri asset; name := name; type := type |}
    | _, _ => Ret tt
    end.

(** [useCallback(fn, [])]: with an empty dependency list React hands back,
    on every render, the function the first render created. *)
Definition useCallback_no_deps {A} (first_render this_render : A) : A := first_render.

(** The handlers a render of [App] in state [s] puts in scope.  Both are
    wrapped in [useCallback(..., [])], so they are the closures of the first
    render, where [history] is [useState([])]'s initial value. *)
Definition App_uploadFile (s : AppState) : File -> Prog unit :=
  useCallback_no_deps (uploadFile (history App_initial)) (uploadFile (history s)).

Definition App_handlePickImage (s : AppState) : Prog unit :=
  useCallback_no_deps
    (handlePickImage (App_uploadFile App_initial))
    (handlePickImage (App_uploadFile s)).

(** The upload button: [onPress={handlePickImage}], [disabled={uploading}];
    a disabled touchable delivers no press. *)
Definition uploadButton_disabled (s : AppState) : bool := uploading s.

Definition press_uploadButton (o : Oracle) (w : World) : Exit unit * World :=
  if uploadButton_disabled (ui w) then (Returned tt, w)
  else exec (App_handlePickImage (ui w)) o w.

(** A history chip: [onPress={() => { setChat(item); setError(null); }}]
    for the [item] the render mapped at position [i] of [history]. *)
Definition press_historyChip (i : nat) (w : World) : World :=
  match history (ui w) !! i with
  | Some item => perform (setError JNull) (perform (setChat item) w)
  | None => w
  end.

(** Mounting [App]: the state cells take their initial values; nothing is
    read from AsyncStorage. *)
Definition App_mount (stored : gmap string Text) (now : Clock) : World :=
  {| ui := App_initial; storage := stored; intervals := ∅; next_interval := 0;
     pending_resets := 0; clock := now; journal := [] |}.

(** ** Scenarios *)

(** A platform that answers every call of one upload transaction: the
    picker hands over [picked], [fetch] settles with [fetched],
    [response.json()] with [parsed] and [AsyncStorage.setItem] with
    [written]; [None] leaves the call pending. *)
Definition answers (picked : option (PickerResult + JsError))
    (fetched : option (Response + JsError))
    (parsed : option (JsValue + JsError))
    (written : option (unit + JsError)) : Oracle :=
  fun R p =>
    match p in Promise R return option (R + JsError) with
    | requestMediaLibraryPermissionsAsync => Some (inl {| granted := true |})
    | launchImageLibraryAsync => picked
    | fetch _ _ => fetched
    | Response_json _ => parsed
    | AsyncStorage_setItem _ _ => written
    end.

Definition a_jpg : File :=
  {| uri := JStr "file:///a.jpg"; name := JStr "a.jpg"; type := JStr "image/jpeg" |}.

Definition picks_a_jpg : option (PickerResult + JsError) :=
  Some (inl {| canceled := false;
               assets := Some [ {| asset_uri := JStr "file:///a.jpg";
                                   fileName := JStr "a.jpg";
                                   asset_type := JStr "image";
                                   mimeType := JStr "image/jpeg" |} ] |}).

Definition OK_200 : Response := {| ok := true; status := "200" |}.
Definition Unprocessable_422 : Response := {| ok := false; status := "422" |}.

(** [{filename:"a.jpg", file_size:1024, raw_urdu_text:"متن",
      fir_structured_data:{fir_number:"123"}}] *)
Definition scenario_payload : JsValue :=
  JObj (list_to_map [
    ("filename", JStr "a.jpg");
    ("file_size", JNum "1024");
    ("raw_urdu_text", JStr "متن");
    ("fir_structured_data", JObj {[ "fir_number" := JStr "123" ]})
  ]).

Definition noon : Clock :=
  {| Date_now_toString := "1700000000000";
     Date_toISOString := "2023-11-14T22:13:20.000Z" |}.

(** A fresh start of the app on an empty store. *)
Definition fresh : World := App_mount ∅ noon.

(** The value of the read [data.k] when [data] is neither [null] nor
    [undefined]. *)
Definition field (data : JsValue) (k : string) : JsValue :=
  match get data k with inl v => v | inr _ => JUndefined end.

(** The properties of the literal [mappedChat] once no read has thrown, by
    name. *)
Definition mapped_props (now : Clock) (data : JsValue) : gmap string JsValue :=
  list_to_map [
    ("id", JStr (Date_now_toString now));
    ("timestamp", JStr (Date_toISOString now));
    ("filename", field data "filename");
    ("fileSize", field data "file_size");
    ("originalText", field data "original_text" ||| field data "raw_urdu_text");
    ("correctedText", field data "corrected_text" ||| field data "corrected_urdu_text");
    ("rawUrduText", field data "raw_urdu_text");
    ("firStructuredData", field data "fir_structured_data");
    ("extractionType", field data "extraction_type" ||| JStr "text");
    ("correctionsApplied", field data "corrections_applied");
    ("correctionStats", field data "correction_stats" ||| JObj ∅)
  ].

(** ** The stages of one upload, as worlds *)

(** [uploadFile] up to its [await fetch(...)]. *)
Definition upload_started (file : File) (w : World) : World :=
  log (Called (fetch UPLOAD_ENDPOINT [("file", file)]))
    (start_interval
       (perform (setProgress 0) (perform (setProgress 0)
          (perform (setError JNull) (perform (setUploading true) w))))).

(** From the arrival of the response to the call of [response.json()]. *)
Definition response_arrived (interval : nat) (response : Response) (w : World) : World :=
  log (Called (Response_json response))
    (perform (setProgress 100) (perform (clearInterval interval) w)).

(** The [finally] block. *)
Definition upload_settled (w : World) : World :=
  perform setTimeout_resetProgress (perform (setUploading false) w).

(** The [catch (e)] block followed by the [finally] block. *)
Definition upload_caught (interval : nat) (e : JsError) (w : World) : World :=
  upload_settled
    (perform (setError (JStr (message e) ||| JStr "Failed to process file"))
       (perform (clearInterval interval) w)).

(** From the parsed body to the call of [AsyncStorage.setItem]. *)
Definition result_shown (mappedChat : JsValue) (history : list JsValue) (w : World) : World :=
  log (Called (AsyncStorage_setItem "specter_history"
                 (JSON_stringify (JArr (nextHistory mappedChat history)))))
    (perform (setHistory (nextHistory mappedChat history))
       (perform (setChat mappedChat) w)).

(** The value [failure_message] returns once [response.json()] has settled
    with [parsed]. *)
Definition chosen_message (response : Response) (parsed : JsValue + JsError) : JsValue :=
  let message := JStr ("Upload failed with status " ++ status response) in
  match parsed with
  | inl errJson =>
      let detail := if truthy errJson then field errJson "detail" else errJson in
      if truthy detail then detail else message
  | inr _ => message
  end.

(** The two calls [uploadFile] awaits besides [response.json()]. *)
Definition upload_request (file : File) : Promise Response :=
  fetch UPLOAD_ENDPOINT [("file", file)].

Definition history_write (mappedChat : JsValue) (history : list JsValue) : Promise unit :=
  AsyncStorage_setItem "specter_history"
    (JSON_stringify (JArr (nextHistory mappedChat history))).

(** The object [mappedChat] evaluates to when no read throws. *)
Definition mapped (now : Clock) (data : JsValue) : JsValue :=
  JObj (mapped_props now data).

(** ** The vocabulary of the claims *)

(** The keys the specification lists for a normalised result. *)
Definition UploadResult_keys : list string :=
  ["filename"; "fileSize"; "originalText"; "correctedText"; "rawUrduText";
   "structuredData"; "extractionType"; "correctionsApplied"; "correctionStats"].

(** The own property names of the literal [mappedChat]. *)
Definition mappedChat_keys : list string :=
  ["id"; "timestamp"; "filename"; "fileSize"; "originalText"; "correctedText";
   "rawUrduText"; "firStructuredData"; "extractionType"; "correctionsApplied";
   "correctionStats"].

(** [result] is an object whose property [key] is present and holds
    something other than [undefined]. *)
Definition explicit_value (result : JsValue) (key : string) : Prop :=
  match result with
  | JObj props => exists v, props !! key = Some v /\ v <> JUndefined
  | _ => False
  end.

(** An object without its client-generated [id] and [timestamp]. *)
Definition without_id_timestamp (result : JsValue) : JsValue :=
  match result with
  | JObj props => JObj (delete "id" (delete "timestamp" props))
  | v => v
  end.

(** A platform on which the user picks [a.jpg] and the backend answers 200
    with body [data]; the history record is written. *)
Definition succeeds_with (data : JsValue) : Oracle :=
  answers picks_a_jpg (Some (inl OK_200)) (Some (inl data)) (Some (inl tt)).

(** One tap on the upload button, run as far as the platform answers. *)
Definition tap (o : Oracle) (w : World) : World := snd (press_uploadButton o w).

(** One tap per payload of the list, each upload succeeding. *)
Definition uploads (payloads : list JsValue) (w : World) : World :=
  foldl (fun w data => tap (succeeds_with data) w) w payloads.

(** [{filename: "<n>.jpg"}] *)
Definition numbered (n : nat) : JsValue :=
  JObj {[ "filename" := JStr (pretty n ++ ".jpg") ]}.

(** [load()] in the words of the specification: the persisted entries, or
    the empty history when the record is missing or does not deserialise to
    a sequence. *)
Definition spec_load (stored : gmap string Text) : list JsValue :=
  match stored !! "specter_history" with
  | Some (JSON_stringify (JArr entries)) => entries
  | _ => []
  end.

(** The number of [fetch] calls a journal records. *)
Definition is_fetch (e : Entry) : bool :=
  match e with
  | Called (fetch _ _) => true
  | _ => false
  end.

Definition fetch_calls (j : list Entry) : nat := length (List.filter is_fetch j).

(** A platform on which the user picks [a.jpg] and the backend has not
    answered yet. *)
Definition still_pending : Oracle := answers picks_a_jpg None None None.

(** A platform on which the backend answers with [response] and the body
    parses to [body]. *)
Definition answers_with (response : Response) (body : JsValue) : Oracle :=
  answers picks_a_jpg (Some (inl response)) (Some (inl body)) (Some (inl tt)).

(** A platform on which [fetch] itself rejects with [e]. *)
Definition network_fails (e : JsError) : Oracle :=
  answers picks_a_jpg (Some (inr e)) None None.

(** What is shown for a caught error: [e.message || "Failed to process
    file"]. *)
Definition shown (e : JsError) : JsValue :=
  JStr (message e) ||| JStr "Failed to process file".

(** The ways an upload fails: [fetch] rejects; the response is not ok
    (whatever its body); the body of an ok response does not parse; or it
    parses to [null], on which the first read of [mappedChat] throws. *)
Inductive upload_fails (o : Oracle) (file : File) : Prop :=
| network_failure (e : JsError) :
    o _ (upload_request file) = Some (inr e) ->
    upload_fails o file
| bad_status (response : Response) (parsed : JsValue + JsError) :
    o _ (upload_request file) = Some (inl response) ->
    ok response = false ->
    o _ (Response_json response) = Some parsed ->
    upload_fails o file
| malformed_body (response : Response) (e : JsError) :
    o _ (upload_request file) = Some (inl response) ->
    ok response = true ->
    o _ (Response_json response) = Some (inr e) ->
    upload_fails o file
| null_body (response : Response) (data : JsValue) :
    o _ (upload_request file) = Some (inl response) ->
    ok response = true ->
    o _ (Response_json response) = Some (inl data) ->
    nullish data = true ->
    upload_fails o file.

(** A platform on which the upload succeeds but the write of the history
    record rejects with [e]. *)
Definition write_fails (data : JsValue) (e : JsError) : Oracle :=
  answers picks_a_jpg (Some (inl OK_200)) (Some (inl data)) (Some (inr e)).

(** The world in which a tap has reached [uploadFile]. *)
Definition picked (w : World) : World :=
  log (Called launchImageLibraryAsync)
    (log (Called requestMediaLibraryPermissionsAsync)
       (perform (setError JNull) w)).

(** The state cells an observer sees after the calls of a journal, made
    one at a time from state [s]. *)
Definition replay (j : list Entry) (s : AppState) : AppState :=
  foldl (fun s e => match e with Did eff => assign eff s | Called _ => s end) s j.

(** [a] is recorded immediately before [b]: nothing is called in between. *)
Definition immediately_before (a b : Entry) (j : list Entry) : Prop :=
  exists before after : list Entry, j = (before ++ a :: b :: after)%list.

(** Two worlds that differ at most in what the durable store holds. *)
Definition agree_off_store (w1 w2 : World) : Prop :=
  ui w1 = ui w2 /\ intervals w1 = intervals w2 /\
  next_interval w1 = next_interval w2 /\ pending_resets w1 = pending_resets w2 /\
  clock w1 = clock w2 /\ journal w1 = journal w2.

(** ** What a render shows of the state *)

(** [{uploading || progress > 0 ? <progress bar> : null}] *)
Definition progressContainer_shown (s : AppState) : bool :=
  uploading s || (0 <? progress s)%Z.

(** [{error && <error banner>}] *)
Definition errorBanner_shown (s : AppState) : bool := truthy (error s).

(** ** Where a call of [uploadFile] can stand *)

(** The six places at which [uploadFile], run against platform [o] from
    world [w], stops: awaiting one of its three calls, or returned after a
    failure before or after the response, or after a success. *)
Inductive upload_outcome (o : Oracle) (history : list JsValue) (file : File) (w : World)
  : Exit unit * World -> Prop :=
| awaits_fetch k :
    o _ (upload_request file) = None ->
    upload_outcome o history file w
      (Awaiting (upload_request file) k, upload_started file w)
| fetch_failed e :
    o _ (upload_request file) = Some (inr e) ->
    upload_outcome o history file w
      (Returned tt, upload_caught (next_interval w) e (upload_started file w))
| awaits_body response k :
    o _ (upload_request file) = Some (inl response) ->
    o _ (Response_json response) = None ->
    upload_outcome o history file w
      (Awaiting (Response_json response) k,
       response_arrived (next_interval w) response (upload_started file w))
| response_failed response e :
    o _ (upload_request file) = Some (inl response) ->
    o _ (Response_json response) <> None ->
    upload_outcome o history file w
      (Returned tt,
       upload_caught (next_interval w) e
         (response_arrived (next_interval w) response (upload_started file w)))
| awaits_write response data k :
    o _ (upload_request file) = Some (inl response) ->
    ok response = true ->
    o _ (Response_json response) = Some (inl data) ->
    nullish data = false ->
    o _ (history_write (mapped (clock w) data) history) = None ->
    upload_outcome o history file w
      (Awaiting (history_write (mapped (clock w) data) history) k,
       result_shown (mapped (clock w) data) history
         (response_arrived (next_interval w) response (upload_started file w)))
| upload_succeeded response data written :
    o _ (upload_request file) = Some (inl response) ->
    ok response = true ->
    o _ (Response_json response) = Some (inl data) ->
    nullish data = false ->
    o _ (history_write (mapped (clock w) data) history) = Some written ->
    upload_outcome o history file w
      (Returned tt,
       upload_settled
         (settle (history_write (mapped (clock w) data) history) written
            (result_shown (mapped (clock w) data) history
               (response_arrived (next_interval w) response (upload_started file w))))).

(** ** The file a pick hands to [uploadFile] *)

(** The [{ uri, name, type }] that [handlePickImage] builds from the first
    asset of the picker's result. *)
Definition file_of_asset (asset : Asset) : File :=
  {| uri := asset_uri asset;
     name := fileName asset ||| JStr "fir_image.jpg";
     type := match asset_type asset with
             | JStr "video" => JStr "video/*"
             | _ => mimeType asset ||| JStr "image/jpeg"
             end |}.

(** [n] firings of the callback of one interval. *)
Definition ticks (n : nat) (interval : nat) (w : World) : World :=
  Nat.iter n (interval_fires interval) w.

(** A platform on which the user refuses the media-library permission. *)
Definition permission_refused : Oracle :=
  fun R p =>
    match p in Promise R return option (R + JsError) with
    | requestMediaLibraryPermissionsAsync => Some (inl {| granted := false |})
    | _ => None
    end.

(** ** Sessions: handlers interleaved by the event loop *)

(** A call of a handler suspended at an [await]: the promise it waits for
    and the rest of the function. *)
Record Task := Suspended {
  awaited_type : Type;
  awaited : Promise awaited_type;
  continuation : awaited_type + JsError -> Prog unit
}.

(** Inside one turn of the event loop no promise settles: every [await]
    suspends its function. *)
Definition nobody_answers : Oracle := fun _ _ => None.

Record Session := { world : World; tasks : list Task }.

(** The session after a handler ran to its next [await] or to its end. *)
Definition spawn (run : Exit unit * World) (others : list Task) : Session :=
  {| world := snd run;
     tasks := match fst run with
              | Awaiting p k => Suspended _ p k :: others
              | _ => others
              end |}.

Definition at_time (now : Clock) (w : World) : World :=
  {| ui := ui w; storage := storage w; intervals := intervals w;
     next_interval := next_interval w; pending_resets := pending_resets w;
     clock := now; journal := journal w |}.

(** One turn of the event loop: a press on the upload button or on a
    history chip, a firing of an interval or of a reset timer, the passing
    of time, or the settling of a promise some handler awaits, with any
    value or rejection. *)
Inductive turn : Session -> Session -> Prop :=
| turn_uploadButton s :
    turn s (spawn (press_uploadButton nobody_answers (world s)) (tasks s))
| turn_historyChip s i :
    turn s {| world := press_historyChip i (world s); tasks := tasks s |}
| turn_interval s interval :
    turn s {| world := interval_fires interval (world s); tasks := tasks s |}
| turn_reset s :
    turn s {| world := reset_fires (world s); tasks := tasks s |}
| turn_clock s now :
    turn s {| world := at_time now (world s); tasks := tasks s |}
| turn_settles s before task after (r : awaited_type task + JsError) :
    tasks s = (before ++ task :: after)%list ->
    turn s (spawn (resume (awaited task) (continuation task) r nobody_answers (world s))
              (before ++ after)%list).

(** The sessions [App] can be in, from its mount on. *)
Inductive reachable : Session -> Prop :=
| reachable_mount stored now :
    reachable {| world := App_mount stored now; tasks := [] |}
| reachable_turn s s' :
    reachable s -> turn s s' -> reachable s'.

(** A result as [uploadFile] builds it: the literal [mappedChat] of some
    response body, made at some time. *)
Definition is_result (c : JsValue) : Prop :=
  exists now data, nullish data = false /\ c = mapped now data.

(** What the error banner can hold: nothing, or a non-empty text. *)
Definition error_or_null (e : JsValue) : Prop :=
  e = JNull \/ exists m, e = JStr m /\ m <> "".

(** The calls that keep the state cells within bounds. *)
Definition within_bounds (eff : Effect) : Prop :=
  match eff with
  | setProgress n => (0 <= n <= 100)%Z
  | setError e => error_or_null e
  | setChat c => is_result c
  | setHistory h => length h <= 1 /\ Forall is_result h
  | setUploading _ | clearInterval _ | setTimeout_resetProgress => True
  end.

(** A program all of whose calls are [within_bounds], whatever its awaits
    resolve to, and whose return value satisfies [post]. *)
Fixpoint bounded {A} (post : A -> Prop) (m : Prog A) : Prop :=
  match m with
  | Ret a => post a
  | Throw _ => True
  | Do eff k => within_bounds eff /\ bounded post k
  | SetInterval k => forall interval, bounded post (k interval)
  | Now k => forall now, bounded post (k now)
  | Await p k => forall r, bounded post (k r)
  end.

Definition state_in_bounds (s : AppState) : Prop :=
  length (history s) <= 1 /\ Forall is_result (history s) /\
  (chat s = JNull \/ is_result (chat s)) /\
  (0 <= progress s <= 100)%Z /\
  error_or_null (error s).

Definition world_in_bounds (w : World) : Prop :=
  state_in_bounds (ui w) /\
  forall interval current,
    intervals w !! interval = Some current -> (0 <= current < 90)%Z.

Definition session_in_bounds (s : Session) : Prop :=
  world_in_bounds (world s) /\
  Forall (fun task => forall r, bounded (fun _ => True) (continuation task r)) (tasks s).

(** ** The spinner and the uploads in flight *)

(** Every path through [m] ends after a [setUploading(false)] that no
    [setUploading(true)] follows; [cleared] tells whether the path so far
    ends that way. *)
Fixpoint clears_uploading {A} (cleared : bool) (m : Prog A) : Prop :=
  match m with
  | Ret _ | Throw _ => cleared = true
  | Do eff k =>
      match eff with
      | setUploading b => clears_uploading (negb b) k
      | _ => clears_uploading cleared k
      end
  | SetInterval k => forall interval, clears_uploading cleared (k interval)
  | Now k => forall now, clears_uploading cleared (k now)
  | Await p k => forall r, clears_uploading cleared (k r)
  end.

(** A program that, wherever it calls [setUploading(true)], goes on with
    a rest that [clears_uploading]. *)
Fixpoint balanced {A} (m : Prog A) : Prop :=
  match m with
  | Ret _ | Throw _ => True
  | Do eff k =>
      match eff with
      | setUploading true => clears_uploading false k
      | _ => balanced k
      end
  | SetInterval k => forall interval, balanced (k interval)
  | Now k => forall now, balanced (k now)
  | Await p k => forall r, balanced (k r)
  end.

(** A suspended handler that is an upload in flight: however its promise
    settles, what is left of it ends with [uploading] cleared. *)
Definition upload_in_flight (task : Task) : Prop :=
  forall r, clears_uploading false (continuation task r).

Definition spinner_accounted (s : Session) : Prop :=
  Forall (fun task => forall r, balanced (continuation task r)) (tasks s) /\
  (uploading (ui (world s)) = true -> Exists upload_in_flight (tasks s)).

(** ** The intervals and the uploads in flight *)

(** Every path through [m] ends after a [clearInterval(interval)];
    [cleared] tells whether the path so far has made that call. *)
Fixpoint clears_interval {A} (interval : nat) (cleared : bool) (m : Prog A) : Prop :=
  match m with
  | Ret _ | Throw _ => cleared = true
  | Do eff k =>
      match eff with
      | clearInterval j => clears_interval interval (cleared || Nat.eqb j interval) k
      | _ => clears_interval interval cleared k
      end
  | SetInterval k => forall j, clears_interval interval cleared (k j)
  | Now k => forall now, clears_interval interval cleared (k now)
  | Await p k => forall r, clears_interval interval cleared (k r)
  end.

Fixpoint starts_no_interval {A} (m : Prog A) : Prop :=
  match m with
  | Ret _ | Throw _ => True
  | Do _ k => starts_no_interval k
  | SetInterval _ => False
  | Now k => forall now, starts_no_interval (k now)
  | Await p k => forall r, starts_no_interval (k r)
  end.

(** A program that goes on, from each [setInterval], with a rest that
    clears the new interval and starts no other. *)
Fixpoint tidy {A} (m : Prog A) : Prop :=
  match m with
  | Ret _ | Throw _ => True
  | Do _ k => tidy k
  | SetInterval k =>
      forall interval, clears_interval interval false (k interval) /\
                       starts_no_interval (k interval)
  | Now k => forall now, tidy (k now)
  | Await p k => forall r, tidy (k r)
  end.

(** A suspended handler that still owes a [clearInterval(interval)],
    however its promise settles. *)
Definition owes_clearInterval (interval : nat) (task : Task) : Prop :=
  forall r, clears_interval interval false (continuation task r).

Definition intervals_accounted (s : Session) : Prop :=
  (forall interval current,
     intervals (world s) !! interval = Some current ->
     interval < next_interval (world s)) /\
  Forall (fun task => forall r, tidy (continuation task r)) (tasks s) /\
  (forall interval current,
     intervals (world s) !! interval = Some current ->
     Exists (owes_clearInterval interval) (tasks s)).

(** ** Disciplines: what a handler calls, and when *)

(** A discipline is kept in a [mode] that calls and awaits move on:
    [allows] tells which calls a mode admits, [promised] which promises
    may be awaited in it. *)
Record Discipline := {
  mode : Type;
  allows : mode -> Effect -> Prop;
  after_effect : mode -> Effect -> mode;
  promised : mode -> forall R, Promise R -> Prop;
  after_await : mode -> forall R, Promise R -> R + JsError -> mode
}.

(** Every path through [m], started in mode [q], keeps the discipline. *)
Fixpoint follows (d : Discipline) {A} (q : mode d) (m : Prog A) : Prop :=
  match m with
  | Ret _ | Throw _ => True
  | Do eff k => allows d q eff /\ follows d (after_effect d q eff) k
  | SetInterval k => forall interval, follows d q (k interval)
  | Now k => forall now, follows d q (k now)
  | Await p k => promised d q _ p /\ forall r, follows d (after_await d q _ p r) (k r)
  end.

(** A program that calls and awaits nothing: it returns a value that
    satisfies [post], or throws. *)
Fixpoint computes {A} (post : A -> Prop) (m : Prog A) : Prop :=
  match m with
  | Ret a => post a
  | Throw _ => True
  | Now k => forall now, computes post (k now)
  | Do _ _ | SetInterval _ | Await _ _ => False
  end.

(** *** The durable store *)

(** The one write the program makes: the record ["specter_history"], set
    to the serialisation of a history of one result. *)
Definition writes_history {R} (p : Promise R) : Prop :=
  match p with
  | AsyncStorage_setItem key value =>
      key = "specter_history" /\
      exists c, is_result c /\ value = JSON_stringify (JArr [c])
  | _ => True
  end.

Definition store_discipline : Discipline :=
  {| mode := unit;
     allows := fun _ _ => True;
     after_effect := fun q _ => q;
     promised := fun _ R p => writes_history p;
     after_await := fun q _ _ _ => q |}.

Definition store_accounted (s : Session) : Prop :=
  Forall (fun task => writes_history (awaited task) /\
                      forall r, follows store_discipline tt (continuation task r))
    (tasks s).

(** *** One upload at a time *)

(** The three calls [uploadFile] awaits. *)
Definition awaits_upload_call {R} (p : Promise R) : bool :=
  match p with
  | fetch _ _ | Response_json _ | AsyncStorage_setItem _ _ => true
  | requestMediaLibraryPermissionsAsync | launchImageLibraryAsync => false
  end.

(** The mode is the value of [uploading] as the handler last set or found
    it: the calls of an upload are awaited with the flag set. *)
Definition flag_discipline : Discipline :=
  {| mode := bool;
     allows := fun _ _ => True;
     after_effect := fun up eff => match eff with setUploading b => b | _ => up end;
     promised := fun up R p => awaits_upload_call p = true -> up = true;
     after_await := fun up _ _ _ => up |}.

(** The sessions in which no press reaches [handlePickImage] while
    another handler is suspended: a turn adds a handler only when there is
    none. *)
Inductive serial : Session -> Prop :=
| serial_mount stored now :
    serial {| world := App_mount stored now; tasks := [] |}
| serial_turn s s' :
    serial s -> turn s s' ->
    tasks s = [] \/ length (tasks s') <= length (tasks s) ->
    serial s'.

Definition one_at_a_time (s : Session) : Prop :=
  length (tasks s) <= 1 /\
  Forall (fun task =>
            (awaits_upload_call (awaited task) = true ->
             uploading (ui (world s)) = true) /\
            forall r, follows flag_discipline (uploading (ui (world s)))
                        (continuation task r))
    (tasks s).

(** *** The pace of the progress *)

(** The progress a handler may set on resuming from [p] settled with
    [r]: up to 100 once a [fetch] has resolved with a response, and up to
    90 otherwise. *)
Definition bound_after {R} (p : Promise R) : R + JsError -> Z :=
  match p with
  | fetch _ _ => fun r => match r with inl _ => 100%Z | inr _ => 90%Z end
  | _ => fun _ => 90%Z
  end.

Definition pace_discipline : Discipline :=
  {| mode := Z;
     allows := fun bound eff =>
                 match eff with setProgress n => (n <= bound)%Z | _ => True end;
     after_effect := fun bound _ => bound;
     promised := fun _ _ _ => True;
     after_await := fun _ R p r => bound_after p r |}.

Definition pace_accounted (s : Session) : Prop :=
  Forall (fun task =>
            forall r, follows pace_discipline (bound_after (awaited task) r)
                        (continuation task r))
    (tasks s).

(** * Properties *)

(** ** The interpreter commutes with the control operators *)

Lemma exec_bind {A B} (m : Prog A) (f : A -> Prog B) (o : Oracle) (w : World) :
  exec (bind m f) o w =
  match exec m o w with
  | (Returned a, w') => exec (f a) o w'
  | (Thrown e, w') => (Thrown e, w')
  | (Awaiting p k, w') => (Awaiting p (fun r => bind (k r) f), w')
  end.
Proof.
  revert w; induction m as [a|e|eff k IH|k IH|k IH|R p k IH]; intros w; cbn; auto.
  destruct (o R p); auto.
Qed.

Lemma exec_try_catch {A} (m : Prog A) (h : JsError -> Prog A) (o : Oracle) (w : World) :
  exec (try_catch m h) o w =
  match exec m o w with
  | (Returned a, w') => (Returned a, w')
  | (Thrown e, w') => exec (h e) o w'
  | (Awaiting p k, w') => (Awaiting p (fun r => try_catch (k r) h), w')
  end.
Proof.
  revert w; induction m as [a|e|eff k IH|k IH|k IH|R p k IH]; intros w; cbn; auto.
  destruct (o R p); auto.
Qed.

Lemma exec_finally {A} (m : Prog A) (f : Prog unit) (o : Oracle) (w : World) :
  exec (finally m f) o w =
  match exec m o w with
  | (Returned a, w') => exec (bind f (fun _ => Ret a)) o w'
  | (Thrown e, w') => exec (bind f (fun _ => Throw e)) o w'
  | (Awaiting p k, w') => (Awaiting p (fun r => finally (k r) f), w')
  end.
Proof.
  revert w; induction m as [a|e|eff k IH|k IH|k IH|R p k IH]; intros w; cbn; auto.
  destruct (o R p); auto.
Qed.

(** ** The response mapping *)

Lemma exec_mappedChat (data : JsValue) (o : Oracle) (w : World) :
  exec (mappedChat data) o w =
  (if nullish data then Thrown (TypeError_read data "filename")
   else Returned (JObj (mapped_props (clock w) data)), w).
Proof.
  unfold mappedChat, mapped_props, read, field, or_else.
  destruct data; cbn; try reflexivity.
  destruct (truthy (default JUndefined (props !! "original_text")));
    destruct (truthy (default JUndefined (props !! "corrected_text")));
    reflexivity.
Qed.

Lemma truthy_not_nullish (v : JsValue) : truthy v = true -> nullish v = false.
Proof. destruct v; cbn; congruence. Qed.

Lemma read_not_nullish (v : JsValue) (k : string) :
  nullish v = false -> read v k = Ret (field v k).
Proof. destruct v; cbn; congruence. Qed.

(** ** The paths through [uploadFile] *)

Lemma exec_Ret {A} (a : A) (o : Oracle) (w : World) : exec (Ret a) o w = (Returned a, w).
Proof. reflexivity. Qed.

Lemma exec_Throw {A} (e : JsError) (o : Oracle) (w : World) :
  exec (Throw e : Prog A) o w = (Thrown e, w).
Proof. reflexivity. Qed.

Lemma exec_Do {A} (eff : Effect) (k : Prog A) (o : Oracle) (w : World) :
  exec (Do eff k) o w = exec k o (perform eff w).
Proof. reflexivity. Qed.

Lemma exec_SetInterval {A} (k : nat -> Prog A) (o : Oracle) (w : World) :
  exec (SetInterval k) o w = exec (k (next_interval w)) o (start_interval w).
Proof. reflexivity. Qed.

Lemma exec_Now {A} (k : Clock -> Prog A) (o : Oracle) (w : World) :
  exec (Now k) o w = exec (k (clock w)) o w.
Proof. reflexivity. Qed.

Lemma exec_Await_pending {A R} (p : Promise R) (k : R + JsError -> Prog A)
    (o : Oracle) (w : World) :
  o _ p = None -> exec (Await p k) o w = (Awaiting p k, log (Called p) w).
Proof. intros H; cbn [exec]; rewrite H; reflexivity. Qed.

Lemma exec_Await_settled {A R} (p : Promise R) (k : R + JsError -> Prog A)
    (o : Oracle) (w : World) (r : R + JsError) :
  o _ p = Some r -> exec (Await p k) o w = exec (k r) o (settle p r (log (Called p) w)).
Proof. intros H; cbn [exec]; rewrite H; reflexivity. Qed.

(** Bring the program to its next call, then run the calls that return at
    once. *)
Ltac program :=
  cbn [bind try_catch finally call await simulateProgress
       mbind mret Prog_bind Prog_ret negb].

Ltac step :=
  program;
  repeat first [ rewrite exec_Do | rewrite exec_SetInterval | rewrite exec_Now
               | rewrite exec_Ret | rewrite exec_Throw ].

Ltac settled H := rewrite (exec_Await_settled _ _ _ _ _ H); step.

Ltac into_body :=
  unfold mbind, Prog_bind; rewrite exec_finally, exec_try_catch, ?exec_bind.

Lemma exec_failure_message (response : Response) (o : Oracle) (w : World)
    (parsed : JsValue + JsError) :
  o _ (Response_json response) = Some parsed ->
  exec (failure_message response) o w =
  (Returned (chosen_message response parsed), log (Called (Response_json response)) w).
Proof.
  intros Hj. unfold failure_message, chosen_message. step. settled Hj.
  destruct parsed as [errJson|e]; step; cbn [settle]; [|reflexivity].
  destruct (truthy errJson) eqn:Ht.
  - rewrite read_not_nullish by now apply truthy_not_nullish.
    step. destruct (truthy (field errJson "detail")); reflexivity.
  - step. rewrite Ht. reflexivity.
Qed.

Section Paths.
Variables (history : list JsValue) (file : File) (o : Oracle) (w : World).

Lemma uploadFile_fetch_pending :
  o _ (upload_request file) = None ->
  exists k, exec (uploadFile history file) o w =
            (Awaiting (upload_request file) k, upload_started file w).
Proof.
  intros Hf. unfold uploadFile. step.
  change (fetch UPLOAD_ENDPOINT [("file", file)]) with (upload_request file).
  rewrite (exec_Await_pending _ _ _ _ Hf). eexists. reflexivity.
Qed.

Lemma uploadFile_fetch_rejected (e : JsError) :
  o _ (upload_request file) = Some (inr e) ->
  exec (uploadFile history file) o w =
  (Returned tt, upload_caught (next_interval w) e (upload_started file w)).
Proof.
  intros Hf. unfold uploadFile. step.
  change (fetch UPLOAD_ENDPOINT [("file", file)]) with (upload_request file). settled Hf. reflexivity.
Qed.

Section Responded.
Variable response : Response.
Hypothesis Hfetch : o _ (upload_request file) = Some (inl response).

Lemma uploadFile_error_body_pending :
  ok response = false ->
  o _ (Response_json response) = None ->
  exists k, exec (uploadFile history file) o w =
            (Awaiting (Response_json response) k, response_arrived (next_interval w) response (upload_started file w)).
Proof.
  intros Hok Hj. unfold uploadFile. step.
  change (fetch UPLOAD_ENDPOINT [("file", file)]) with (upload_request file). settled Hfetch.
  rewrite Hok. step. unfold failure_message. step.
  rewrite (exec_Await_pending _ _ _ _ Hj). eexists. reflexivity.
Qed.

Lemma uploadFile_not_ok (parsed : JsValue + JsError) :
  ok response = false ->
  o _ (Response_json response) = Some parsed ->
  exec (uploadFile history file) o w =
  (Returned tt,
   upload_caught (next_interval w) (raised (chosen_message response parsed))
     (response_arrived (next_interval w) response (upload_started file w))).
Proof.
  intros Hok Hj. unfold uploadFile. step.
  change (fetch UPLOAD_ENDPOINT [("file", file)]) with (upload_request file). settled Hfetch.
  rewrite Hok. step. into_body.
  rewrite (exec_failure_message _ _ _ _ Hj). step.
  unfold raised. destruct (new_Error (chosen_message response parsed)); reflexivity.
Qed.

Lemma uploadFile_body_pending :
  ok response = true ->
  o _ (Response_json response) = None ->
  exists k, exec (uploadFile history file) o w =
            (Awaiting (Response_json response) k, response_arrived (next_interval w) response (upload_started file w)).
Proof.
  intros Hok Hj. unfold uploadFile. step.
  change (fetch UPLOAD_ENDPOINT [("file", file)]) with (upload_request file). settled Hfetch.
  rewrite Hok. step.
  rewrite (exec_Await_pending _ _ _ _ Hj). eexists. reflexivity.
Qed.

Lemma uploadFile_body_rejected (e : JsError) :
  ok response = true ->
  o _ (Response_json response) = Some (inr e) ->
  exec (uploadFile history file) o w =
  (Returned tt, upload_caught (next_interval w) e
     (response_arrived (next_interval w) response (upload_started file w))).
Proof.
  intros Hok Hj. unfold uploadFile. step.
  change (fetch UPLOAD_ENDPOINT [("file", file)]) with (upload_request file). settled Hfetch.
  rewrite Hok. step. settled Hj. reflexivity.
Qed.

Section Parsed.
Variable data : JsValue.
Hypothesis Hok : ok response = true.
Hypothesis Hjson : o _ (Response_json response) = Some (inl data).

Lemma uploadFile_body_nullish :
  nullish data = true ->
  exec (uploadFile history file) o w =
  (Returned tt, upload_caught (next_interval w) (TypeError_read data "filename")
     (response_arrived (next_interval w) response (upload_started file w))).
Proof.
  intros Hn. unfold uploadFile. step.
  change (fetch UPLOAD_ENDPOINT [("file", file)]) with (upload_request file). settled Hfetch.
  rewrite Hok. step. settled Hjson. into_body.
  rewrite exec_mappedChat, Hn. step. reflexivity.
Qed.

Lemma uploadFile_write_pending :
  nullish data = false ->
  o _ (history_write (mapped (clock w) data) history) = None ->
  exists k, exec (uploadFile history file) o w =
            (Awaiting (history_write (mapped (clock w) data) history) k, result_shown (mapped (clock w) data) history
     (response_arrived (next_interval w) response (upload_started file w))).
Proof.
  intros Hn Hs. unfold uploadFile. step.
  change (fetch UPLOAD_ENDPOINT [("file", file)]) with (upload_request file). settled Hfetch.
  rewrite Hok. step. settled Hjson. into_body.
  rewrite exec_mappedChat, Hn. step.
  rewrite (exec_Await_pending _ _ _ _ Hs). eexists. reflexivity.
Qed.

Lemma uploadFile_succeeds (written : unit + JsError) :
  nullish data = false ->
  o _ (history_write (mapped (clock w) data) history) = Some written ->
  exec (uploadFile history file) o w =
  (Returned tt,
   upload_settled (settle (history_write (mapped (clock w) data) history) written (result_shown (mapped (clock w) data) history
        (response_arrived (next_interval w) response (upload_started file w))))).
Proof.
  intros Hn Hs. unfold uploadFile. step.
  change (fetch UPLOAD_ENDPOINT [("file", file)]) with (upload_request file). settled Hfetch.
  rewrite Hok. step. settled Hjson. into_body.
  rewrite exec_mappedChat, Hn. step.
  settled Hs. destruct written as [[]|e]; step; reflexivity.
Qed.
End Parsed.
End Responded.
End Paths.

(** ** The normalised result (claims C1 and C6) *)

Lemma mapped_props_dom (now : Clock) (data : JsValue) :
  dom (mapped_props now data) = list_to_set mappedChat_keys.
Proof. unfold mapped_props. rewrite dom_list_to_map_L. reflexivity. Qed.

Lemma or_else_truthy (a b : JsValue) : truthy b = true -> truthy (a ||| b) = true.
Proof. unfold or_else. destruct (truthy a) eqn:Ha; auto. Qed.

Lemma field_absent (props : gmap string JsValue) (k : string) :
  props !! k = None -> field (JObj props) k = JUndefined.
Proof. unfold field, get. intros ->. reflexivity. Qed.

(** C1, counterexample: in the scenario of the claim the result holds
    [undefined], not [null], under [correctedText], it holds [undefined]
    under [correctionsApplied], and it has no key [structuredData] (the
    literal calls it [firStructuredData]); so not every listed key has an
    explicit value. *)
Lemma C1_scenario_leaves_undefined :
  exists props,
    exec (mappedChat scenario_payload) (answers None None None None) fresh
      = (Returned (JObj props), fresh) /\
    props !! "correctedText" = Some JUndefined /\
    props !! "correctedText" <> Some JNull /\
    props !! "correctionsApplied" = Some JUndefined /\
    props !! "structuredData" = None /\
    ~ Forall (explicit_value (JObj props)) UploadResult_keys.
Proof.
  exists (mapped_props noon scenario_payload).
  rewrite exec_mappedChat.
  split; [reflexivity|].
  split; [vm_compute; reflexivity|].
  split; [vm_compute; discriminate|].
  split; [vm_compute; reflexivity|].
  split; [vm_compute; reflexivity|].
  intros H. rewrite Forall_forall in H.
  destruct (H "correctedText") as (v & Hv & Hne).
  - unfold UploadResult_keys. set_solver.
  - vm_compute in Hv. congruence.
Qed.

(** C1, amended: on [null] and [undefined] the normalisation throws; for
    every other payload it returns an object with exactly the eleven keys
    of the literal; [extractionType] and [correctionStats] always hold a truthy
    value, the defaults ["text"] and [{}] standing in for a missing or
    falsy source; every other key holds what the payload holds under its
    source, which is [undefined] when the payload lacks the source. *)
Theorem C1_mappedChat_keys_and_defaults (data : JsValue) (o : Oracle) (w : World) :
  (nullish data = true ->
   exec (mappedChat data) o w = (Thrown (TypeError_read data "filename"), w)) /\
  (nullish data = false ->
  exists props,
    exec (mappedChat data) o w = (Returned (JObj props), w) /\
    dom props = list_to_set mappedChat_keys /\
    props !! "filename" = Some (field data "filename") /\
    props !! "fileSize" = Some (field data "file_size") /\
    props !! "originalText"
      = Some (field data "original_text" ||| field data "raw_urdu_text") /\
    props !! "correctedText"
      = Some (field data "corrected_text" ||| field data "corrected_urdu_text") /\
    props !! "rawUrduText" = Some (field data "raw_urdu_text") /\
    props !! "firStructuredData" = Some (field data "fir_structured_data") /\
    props !! "correctionsApplied" = Some (field data "corrections_applied") /\
    (exists v, props !! "extractionType" = Some v /\ truthy v = true /\
               (truthy (field data "extraction_type") = false -> v = JStr "text")) /\
    (exists v, props !! "correctionStats" = Some v /\ truthy v = true /\
               (truthy (field data "correction_stats") = false -> v = JObj ∅)) /\
    (forall fields source,
       data = JObj fields -> fields !! source = None ->
       field data source = JUndefined)).
Proof.
  split; [intros Hn; now rewrite exec_mappedChat, Hn|].
  intros Hn. exists (mapped_props (clock w) data).
  rewrite exec_mappedChat, Hn.
  split; [reflexivity|].
  split; [apply mapped_props_dom|].
  repeat (split; [reflexivity|]).
  split; [|split].
  - exists (field data "extraction_type" ||| JStr "text").
    split; [reflexivity|]. split; [now apply or_else_truthy|].
    unfold or_else. now intros ->.
  - exists (field data "correction_stats" ||| JObj ∅).
    split; [reflexivity|]. split; [now apply or_else_truthy|].
    unfold or_else. now intros ->.
  - intros fields source -> Hs. now apply field_absent.
Qed.

(** The amended C1 at the scenario of the claim: [correctedText] is
    [undefined], [extractionType] is ["text"], [correctionStats] is [{}]. *)
Lemma C1_scenario :
  nullish scenario_payload = false /\
  exists props,
    exec (mappedChat scenario_payload) (answers None None None None) fresh
      = (Returned (JObj props), fresh) /\
    props !! "filename" = Some (JStr "a.jpg") /\
    props !! "fileSize" = Some (JNum "1024") /\
    props !! "rawUrduText" = Some (JStr "متن") /\
    props !! "originalText" = Some (JStr "متن") /\
    props !! "correctedText" = Some JUndefined /\
    props !! "extractionType" = Some (JStr "text") /\
    props !! "correctionStats" = Some (JObj ∅).
Proof.
  split; [reflexivity|].
  destruct (proj2 (C1_mappedChat_keys_and_defaults scenario_payload
                     (answers None None None None) fresh) eq_refl)
    as (props & Hexec & _ & Hfilename & Hsize & Horiginal & Hcorrected & Hraw
        & _ & _ & (t & Ht & _ & Htext) & (s & Hs & _ & Hstats) & _).
  exists props. split; [exact Hexec|].
  split; [exact Hfilename|]. split; [exact Hsize|]. split; [exact Hraw|].
  split; [exact Horiginal|]. split; [exact Hcorrected|].
  split.
  - rewrite Ht. f_equal. apply Htext. reflexivity.
  - rewrite Hs. f_equal. apply Hstats. reflexivity.
Defined.

(** C6: the normalisation depends on the payload alone.  Whatever the
    platform answers and whatever state, store and clock the client is in,
    normalising the same payload gives results that agree on every field but
    [id] and [timestamp] (or throws the same error), and it leaves the
    world as it found it. *)
Theorem C6_mappedChat_deterministic (data : JsValue) (o1 o2 : Oracle) (w1 w2 : World) :
  match fst (exec (mappedChat data) o1 w1), fst (exec (mappedChat data) o2 w2) with
  | Returned a, Returned b => without_id_timestamp a = without_id_timestamp b
  | Thrown e1, Thrown e2 => e1 = e2
  | _, _ => False
  end /\
  snd (exec (mappedChat data) o1 w1) = w1 /\
  (clock w1 = clock w2 ->
   fst (exec (mappedChat data) o1 w1) = fst (exec (mappedChat data) o2 w2)).
Proof.
  rewrite !exec_mappedChat. destruct (nullish data); cbn [fst snd].
  - repeat split; reflexivity.
  - split; [|split; [reflexivity|now intros ->]].
    reflexivity.
Qed.

(** ** The history (claims C2 and C3) *)

Lemma nextHistory_length (c : JsValue) (h : list JsValue) :
  length (nextHistory c h) = Nat.min 20 (S (length h)).
Proof. unfold nextHistory. rewrite length_take. reflexivity. Qed.

Lemma nextHistory_head (c : JsValue) (h : list JsValue) :
  head (nextHistory c h) = Some c.
Proof. reflexivity. Qed.

(** The expression [[mappedChat, ...history].slice(0, 20)] does cap and
    evict when it is handed the current history each time: threaded through
    25 results it keeps 20, the 25th first and the 6th last. *)
Lemma nextHistory_threaded (results : list JsValue) :
  length results = 25 ->
  let h := foldl (fun h c => nextHistory c h) [] results in
  length h = 20 /\ head h = results !! 24 /\ last h = results !! 5.
Proof.
  intros Hlen. do 26 (destruct results as [|? results]; try discriminate Hlen).
  repeat split.
Qed.

(** A tap on the enabled button reaches [uploadFile] with the picked file,
    and that [uploadFile] is the closure of the first render. *)
Lemma tap_picks_a_jpg (fetched : option (Response + JsError))
    (parsed : option (JsValue + JsError)) (written : option (unit + JsError))
    (w : World) :
  uploading (ui w) = false ->
  press_uploadButton (answers picks_a_jpg fetched parsed written) w =
  exec (uploadFile [] a_jpg) (answers picks_a_jpg fetched parsed written)
    (log (Called launchImageLibraryAsync)
       (log (Called requestMediaLibraryPermissionsAsync)
          (perform (setError JNull) w))).
Proof.
  intros Hidle. unfold press_uploadButton, uploadButton_disabled. rewrite Hidle.
  unfold App_handlePickImage, useCallback_no_deps, handlePickImage. step.
  rewrite (exec_Await_settled requestMediaLibraryPermissionsAsync _
             (answers picks_a_jpg fetched parsed written) _
             (inl {| granted := true |}) eq_refl).
  step. cbn [granted negb].
  rewrite (exec_Await_settled launchImageLibraryAsync _
             (answers picks_a_jpg fetched parsed written) _ (inl _) eq_refl).
  step.
  reflexivity.
Qed.

(** After a successful upload the history is the new result alone,
    whatever it held before. *)
Lemma tap_success (data : JsValue) (w : World) :
  uploading (ui w) = false ->
  nullish data = false ->
  let w' := tap (succeeds_with data) w in
  history (ui w') = [mapped (clock w) data] /\
  chat (ui w') = mapped (clock w) data /\
  uploading (ui w') = false /\
  clock w' = clock w /\
  storage w' =
    <["specter_history" := JSON_stringify (JArr [mapped (clock w) data])]> (storage w).
Proof.
  intros Hidle Hn. unfold tap, succeeds_with. rewrite tap_picks_a_jpg by exact Hidle.
  erewrite uploadFile_succeeds; [|reflexivity|reflexivity|reflexivity|exact Hn|reflexivity].
  repeat split.
Qed.

Lemma uploads_keep_last (payloads : list JsValue) (data : JsValue) (w : World) :
  uploading (ui w) = false ->
  Forall (fun d => nullish d = false) (payloads ++ [data])%list ->
  history (ui (uploads (payloads ++ [data])%list w)) = [mapped (clock w) data].
Proof.
  intros Hidle Hall. apply Forall_app in Hall as [Hall Hdata].
  rewrite Forall_singleton in Hdata.
  unfold uploads. rewrite foldl_app. cbn [foldl].
  assert (Hinv : uploading (ui (foldl (fun w d => tap (succeeds_with d) w) w payloads)) = false
                 /\ clock (foldl (fun w d => tap (succeeds_with d) w) w payloads) = clock w).
  { revert w Hidle. induction Hall as [|d ds Hd _ IH]; intros w Hidle; [now split|].
    cbn [foldl]. destruct (tap_success d w Hidle Hd) as (_ & _ & Hu & Hc & _).
    destruct (IH _ Hu) as [IHu IHc]. split; [exact IHu|congruence]. }
  destruct Hinv as [Hu Hc].
  destruct (tap_success data _ Hu Hdata) as (Hh & _). rewrite Hh, Hc. reflexivity.
Qed.

(** C2, the code at 25 uploads: starting afresh and uploading 25 files one
    after another, each successfully, leaves a history of one entry, the
    25th result; the 24 earlier results are gone, where the claim keeps 20.
    [uploadFile] is wrapped in [useCallback(..., [])], so the [history] it
    spreads is for ever the empty list of the first render. *)
Theorem C2_history_after_25_uploads :
  let final := uploads (numbered <$> seq 1 25) fresh in
  history (ui final) = [mapped noon (numbered 25)] /\
  length (history (ui final)) = 1 /\
  length (history (ui final)) <> 20 /\
  last (history (ui final)) <> Some (mapped noon (numbered 6)).
Proof.
  assert (H : history (ui (uploads (numbered <$> seq 1 25) fresh))
              = [mapped noon (numbered 25)]).
  { change (numbered <$> seq 1 25)
      with ((numbered <$> seq 1 24) ++ [numbered 25])%list.
    apply uploads_keep_last; [reflexivity|].
    apply Forall_forall. intros d Hd.
    apply elem_of_app in Hd as [Hd|Hd].
    - apply list_elem_of_fmap in Hd as (n & -> & _). reflexivity.
    - apply list_elem_of_singleton in Hd as ->. reflexivity. }
  cbv zeta. rewrite H. repeat split; [discriminate|].
  cbn [last]. intros Heq. apply (f_equal (fun v => field (match v with Some c => c | None => JNull end) "filename")) in Heq.
  vm_compute in Heq. discriminate Heq.
Qed.

(** C3, counterexample: after a successful upload the store holds a
    well-formed record of one entry; starting the app on that store gives
    the empty history, not the persisted one. *)
Lemma C3_restart_forgets_persisted_history :
  let stored := storage (tap (succeeds_with scenario_payload) fresh) in
  stored !! "specter_history"
    = Some (JSON_stringify (JArr [mapped noon scenario_payload])) /\
  spec_load stored = [mapped noon scenario_payload] /\
  history (ui (App_mount stored noon)) = [] /\
  history (ui (App_mount stored noon)) <> spec_load stored.
Proof.
  destruct (tap_success scenario_payload fresh eq_refl eq_refl) as (_ & _ & _ & _ & Hs).
  cbv zeta. unfold spec_load. rewrite Hs, lookup_insert_eq.
  repeat split. discriminate.
Qed.

(** No program reads the durable store: run from two worlds that differ
    only in what the store holds, a program exits the same way and leaves
    two worlds that again differ only there. *)
Lemma exec_ignores_store {A} (m : Prog A) (o : Oracle) (w1 w2 : World) :
  agree_off_store w1 w2 ->
  fst (exec m o w1) = fst (exec m o w2) /\
  agree_off_store (snd (exec m o w1)) (snd (exec m o w2)).
Proof.
  revert w1 w2.
  induction m as [a|e|eff k IH|k IH|k IH|R p k IH];
    intros w1 w2 (Hui & Hint & Hnext & Hres & Hclock & Hj).
  - split; [reflexivity|]. repeat split; assumption.
  - split; [reflexivity|]. repeat split; assumption.
  - rewrite !exec_Do. apply IH.
    unfold agree_off_store, perform, update, log; cbn.
    rewrite Hui, Hint, Hres, Hj. repeat split; assumption.
  - rewrite !exec_SetInterval, Hnext. apply IH.
    unfold agree_off_store, start_interval; cbn.
    rewrite Hint, Hnext. repeat split; assumption.
  - rewrite !exec_Now, Hclock. apply IH. repeat split; assumption.
  - assert (Hlogged : agree_off_store (log (Called p) w1) (log (Called p) w2)).
    { unfold agree_off_store, log; cbn. rewrite Hj. repeat split; assumption. }
    destruct (o _ p) as [r|] eqn:Hp.
    + rewrite !(exec_Await_settled _ _ _ _ _ Hp). apply IH.
      destruct Hlogged as (Hui' & Hint' & Hnext' & Hres' & Hclock' & Hj').
      destruct p, r; repeat split; assumption.
    + rewrite !(exec_Await_pending _ _ _ _ Hp). split; [reflexivity|exact Hlogged].
Qed.

(** C3, amended: whatever the durable store holds (nothing, text that does
    not parse, or a persisted history), the app starts with the empty
    history, no current result and no error, and starting it neither calls
    nor changes the store; and what the store held at the start never
    reaches the state cells afterwards, because no handler reads it. *)
Theorem C3_mount_starts_empty :
  (forall (stored : gmap string Text) (now : Clock),
     history (ui (App_mount stored now)) = [] /\
     error (ui (App_mount stored now)) = JNull /\
     chat (ui (App_mount stored now)) = JNull /\
     storage (App_mount stored now) = stored /\
     journal (App_mount stored now) = []) /\
  (forall (stored stored' : gmap string Text) (now : Clock) (o : Oracle),
     ui (tap o (App_mount stored now)) = ui (tap o (App_mount stored' now))).
Proof.
  split; [intros stored now; repeat split|].
  intros stored stored' now o. unfold tap, press_uploadButton.
  change (ui (App_mount stored now)) with App_initial.
  change (ui (App_mount stored' now)) with App_initial.
  destruct (uploadButton_disabled App_initial); [reflexivity|].
  apply (exec_ignores_store (App_handlePickImage App_initial) o).
  repeat split.
Qed.

(** ** One upload at a time (claim C4) *)

(** C4, counterexample: with an upload in flight (its [fetch] issued and
    not yet answered, [uploading] set), calling [uploadFile] again is not
    rejected: it issues a second [fetch] and resets the progress of the
    transaction in flight. *)
Lemma C4_second_uploadFile_fetches_again :
  let in_flight := tap still_pending fresh in
  let again := snd (exec (App_uploadFile (ui in_flight) a_jpg) still_pending in_flight) in
  uploading (ui in_flight) = true /\
  fetch_calls (journal in_flight) = 1 /\
  fetch_calls (journal again) = 2 /\
  again <> in_flight.
Proof.
  cbv zeta.
  assert (H1 : fetch_calls (journal (tap still_pending fresh)) = 1) by (vm_compute; reflexivity).
  assert (H2 : fetch_calls (journal (snd (exec (App_uploadFile (ui (tap still_pending fresh)) a_jpg)
                                            still_pending (tap still_pending fresh)))) = 2)
    by (vm_compute; reflexivity).
  split; [vm_compute; reflexivity|]. split; [exact H1|]. split; [exact H2|].
  intros Heq. rewrite Heq, H1 in H2. discriminate H2.
Qed.

Lemma uploadFile_suspended_uploading (history : list JsValue) (file : File)
    (o : Oracle) (w w1 : World) (R : Type) (p : Promise R)
    (k : R + JsError -> Prog unit) :
  exec (uploadFile history file) o w = (Awaiting p k, w1) ->
  uploading (ui w1) = true.
Proof.
  intros Hexec.
  destruct (o _ (upload_request file)) as [[response|e]|] eqn:Hf.
  - destruct (ok response) eqn:Hok.
    + destruct (o _ (Response_json response)) as [[data|e]|] eqn:Hj.
      * destruct (nullish data) eqn:Hn.
        -- rewrite (uploadFile_body_nullish _ _ _ _ _ Hf _ Hok Hj Hn) in Hexec.
           discriminate Hexec.
        -- destruct (o _ (history_write (mapped (clock w) data) history))
             as [written|] eqn:Hs.
           ++ rewrite (uploadFile_succeeds _ _ _ _ _ Hf _ Hok Hj _ Hn Hs) in Hexec.
              discriminate Hexec.
           ++ destruct (uploadFile_write_pending history _ _ w _ Hf _ Hok Hj Hn Hs) as [k' Hk].
              rewrite Hk in Hexec. apply (f_equal snd) in Hexec.
              cbn [snd] in Hexec. subst w1. reflexivity.
      * rewrite (uploadFile_body_rejected _ _ _ _ _ Hf _ Hok Hj) in Hexec.
        discriminate Hexec.
      * destruct (uploadFile_body_pending history _ _ w _ Hf Hok Hj) as [k' Hk].
        rewrite Hk in Hexec. apply (f_equal snd) in Hexec.
              cbn [snd] in Hexec. subst w1. reflexivity.
    + destruct (o _ (Response_json response)) as [parsed|] eqn:Hj.
      * rewrite (uploadFile_not_ok _ _ _ _ _ Hf _ Hok Hj) in Hexec.
        discriminate Hexec.
      * destruct (uploadFile_error_body_pending history _ _ w _ Hf Hok Hj) as [k' Hk].
        rewrite Hk in Hexec. apply (f_equal snd) in Hexec.
              cbn [snd] in Hexec. subst w1. reflexivity.
  - rewrite (uploadFile_fetch_rejected _ _ _ _ _ Hf) in Hexec. discriminate Hexec.
  - destruct (uploadFile_fetch_pending history _ _ w Hf) as [k' Hk].
    rewrite Hk in Hexec. apply (f_equal snd) in Hexec.
              cbn [snd] in Hexec. subst w1. reflexivity.
Qed.

(** ** Failed uploads (claims C5 and C10) *)

Lemma shown_nonempty (e : JsError) : message e <> "" -> shown e = JStr (message e).
Proof.
  intros Hne. unfold shown, or_else. cbn [truthy].
  destruct (String.eqb_spec (message e) ""); [contradiction|reflexivity].
Qed.

Lemma shown_empty (e : JsError) : message e = "" -> shown e = JStr "Failed to process file".
Proof. intros He. unfold shown. rewrite He. reflexivity. Qed.

Lemma caught_state (interval : nat) (e : JsError) (w : World) :
  let w' := upload_caught interval e w in
  error (ui w') = shown e /\ uploading (ui w') = false /\
  chat (ui w') = chat (ui w) /\ history (ui w') = history (ui w) /\
  progress (ui w') = progress (ui w) /\ storage w' = storage w.
Proof. repeat split. Qed.

(** C5, counterexample: five failed uploads whose message is not the one
    the stated precedence picks.  A 422 whose [detail] is a list of
    objects shows ["[object Object]"], not the [detail]; a 422 whose
    [detail] is the empty string shows the status message although a
    [detail] is present; a network failure whose error has an empty
    message shows ["Failed to process file"], not that message; a 422
    whose [detail] is an object with a property ["toString"] shows the
    message of the [TypeError] its conversion throws, neither the
    [detail] nor the status message; and a 200 whose body does not parse
    shows the message of the parser, not the status message. *)
Lemma C5_messages_off_the_stated_precedence :
  let listed := JArr [JObj {[ "msg" := JStr "field required" ]}] in
  error (ui (tap (answers_with Unprocessable_422 (JObj {[ "detail" := listed ]})) fresh))
    = JStr "[object Object]" /\
  JStr "[object Object]" <> listed /\
  error (ui (tap (answers_with Unprocessable_422 (JObj {[ "detail" := JStr "" ]})) fresh))
    = JStr "Upload failed with status 422" /\
  error (ui (tap (network_fails (Error "")) fresh)) = JStr "Failed to process file" /\
  JStr "Failed to process file" <> JStr (message (Error "")) /\
  error (ui (tap (answers_with Unprocessable_422
                    (JObj {[ "detail" := JObj {[ "toString" := JNum "1" ]} ]})) fresh))
    = JStr (message TypeError_toPrimitive) /\
  JStr (message TypeError_toPrimitive) <> JStr "Upload failed with status 422" /\
  error (ui (tap (answers picks_a_jpg (Some (inl OK_200))
                    (Some (inr (Error "JSON Parse error: Unexpected token: <"))) None)
               fresh))
    = JStr "JSON Parse error: Unexpected token: <" /\
  JStr "JSON Parse error: Unexpected token: <" <> JStr "Upload failed with status 200".
Proof.
  cbv zeta. split; [vm_compute; reflexivity|]. split; [discriminate|].
  split; [vm_compute; reflexivity|]. split; [vm_compute; reflexivity|].
  split; [discriminate|]. split; [vm_compute; reflexivity|].
  split; [discriminate|]. split; [vm_compute; reflexivity|].
  discriminate.
Qed.

(** C5, amended: a failed upload ends with [uploading] cleared, an error
    shown and the history untouched, and the error is chosen so.  When
    [fetch] itself rejects, the message of that error.  For a response
    that is not ok, the [detail] of its JSON body converted to a string
    when the body and the [detail] are truthy: a non-empty string [detail]
    is shown as it is, an object shows as ["[object Object]"], and an
    object with a property ["toString"] of its own makes the conversion
    throw, so that the message of that [TypeError] is shown; otherwise,
    also when the body does not parse, ["Upload failed with status
    <code>"].  For an ok response whose body does not parse, the message
    of the parser's error; for an ok response whose body is [null], the
    message of the [TypeError] of reading its [filename].  In each case
    ["Failed to process file"] takes the place of an empty message. *)
Theorem C5_failure_message (history0 : list JsValue) (file : File) (o : Oracle) (w : World) :
  let w' := snd (exec (uploadFile history0 file) o w) in
  let status_message (response : Response) :=
    JStr ("Upload failed with status " ++ status response) in
  (forall e,
     o _ (upload_request file) = Some (inr e) ->
     error (ui w') = shown e /\
     uploading (ui w') = false /\ history (ui w') = history (ui w)) /\
  (forall response parsed,
     o _ (upload_request file) = Some (inl response) ->
     ok response = false ->
     o _ (Response_json response) = Some parsed ->
     uploading (ui w') = false /\ history (ui w') = history (ui w) /\
     match parsed with
     | inl errJson =>
         if truthy errJson && truthy (field errJson "detail")
         then error (ui w') = shown (raised (field errJson "detail")) /\
              (forall d, field errJson "detail" = JStr d -> error (ui w') = JStr d) /\
              (forall props,
                 field errJson "detail" = JObj props ->
                 error (ui w') = match props !! "toString" with
                                 | Some _ => JStr (message TypeError_toPrimitive)
                                 | None => JStr "[object Object]"
                                 end)
         else error (ui w') = status_message response
     | inr _ => error (ui w') = status_message response
     end) /\
  (forall response e,
     o _ (upload_request file) = Some (inl response) ->
     ok response = true ->
     o _ (Response_json response) = Some (inr e) ->
     error (ui w') = shown e /\
     uploading (ui w') = false /\ history (ui w') = history (ui w)) /\
  (forall response data,
     o _ (upload_request file) = Some (inl response) ->
     ok response = true ->
     o _ (Response_json response) = Some (inl data) ->
     nullish data = true ->
     error (ui w') = JStr (message (TypeError_read data "filename")) /\
     uploading (ui w') = false /\ history (ui w') = history (ui w)) /\
  (forall e, message e <> "" -> shown e = JStr (message e)) /\
  (forall e, message e = "" -> shown e = JStr "Failed to process file").
Proof.
  cbv zeta.
  split; [|split; [|split; [|split; [|split; [exact shown_nonempty|exact shown_empty]]]]].
  - intros e Hf. rewrite (uploadFile_fetch_rejected _ _ _ _ _ Hf). cbn [snd].
    destruct (caught_state (next_interval w) e (upload_started file w))
      as (He & Hu & _ & Hh & _).
    repeat split; assumption.
  - intros response parsed Hf Hok Hj.
    rewrite (uploadFile_not_ok _ _ _ _ _ Hf _ Hok Hj). cbn [snd].
    destruct (caught_state (next_interval w)
                (raised (chosen_message response parsed))
                (response_arrived (next_interval w) response (upload_started file w)))
      as (He & Hu & _ & Hh & _).
    split; [exact Hu|]. split; [exact Hh|]. rewrite He. clear He Hu Hh.
    unfold chosen_message. destruct parsed as [errJson|e]; [|reflexivity].
    destruct (truthy errJson) eqn:Ht; cbn [andb].
    + destruct (truthy (field errJson "detail")) eqn:Hd.
      * split; [reflexivity|]. split.
        -- intros d Hdetail. rewrite Hdetail in Hd |- *.
           apply shown_nonempty. cbn [raised new_Error ToString message].
           intros ->. discriminate Hd.
        -- intros props Hdetail. rewrite Hdetail.
           unfold raised, new_Error. cbn [ToString].
           destruct (props !! "toString"); reflexivity.
      * reflexivity.
    + rewrite Ht. reflexivity.
  - intros response e Hf Hok Hj.
    rewrite (uploadFile_body_rejected _ _ _ _ _ Hf _ Hok Hj). cbn [snd].
    destruct (caught_state (next_interval w) e
                (response_arrived (next_interval w) response (upload_started file w)))
      as (He & Hu & _ & Hh & _).
    repeat split; assumption.
  - intros response data Hf Hok Hj Hn.
    rewrite (uploadFile_body_nullish _ _ _ _ _ Hf _ Hok Hj Hn). cbn [snd].
    destruct (caught_state (next_interval w) (TypeError_read data "filename")
                (response_arrived (next_interval w) response (upload_started file w)))
      as (He & Hu & _ & Hh & _).
    split; [|split; assumption]. rewrite He. apply shown_nonempty. discriminate.
Qed.

(** The amended C5 at the scenario of the claim: HTTP 422 with body
    [{"detail":"Unsupported file type"}]. *)
Lemma C5_unsupported_file_type :
  let o := answers_with Unprocessable_422 (JObj {[ "detail" := JStr "Unsupported file type" ]}) in
  let w := log (Called launchImageLibraryAsync)
             (log (Called requestMediaLibraryPermissionsAsync)
                (perform (setError JNull) fresh)) in
  o _ (upload_request a_jpg) = Some (inl Unprocessable_422) /\
  ok Unprocessable_422 = false /\
  error (ui (snd (exec (uploadFile [] a_jpg) o w))) = JStr "Unsupported file type" /\
  uploading (ui (snd (exec (uploadFile [] a_jpg) o w))) = false /\
  history (ui (snd (exec (uploadFile [] a_jpg) o w))) = history (ui fresh).
Proof.
  cbv zeta.
  destruct (proj1 (proj2 (C5_failure_message [] a_jpg
              (answers_with Unprocessable_422
                 (JObj {[ "detail" := JStr "Unsupported file type" ]}))
              (log (Called launchImageLibraryAsync)
                 (log (Called requestMediaLibraryPermissionsAsync)
                    (perform (setError JNull) fresh)))))
              Unprocessable_422 _ eq_refl eq_refl eq_refl)
    as (Hu & Hh & He).
  split; [reflexivity|]. split; [reflexivity|].
  split; [|split; [exact Hu|exact Hh]].
  exact (proj1 (proj2 He) "Unsupported file type" eq_refl).
Defined.

Lemma shown_is_text (e : JsError) : exists m, shown e = JStr m.
Proof. unfold shown, or_else. destruct (truthy _); eauto. Qed.

(** C10: an upload that fails (network error, response not ok, body that
    does not parse, or [null] body) returns normally and leaves the current
    result, the history and the durable store as they were; it ends with
    [uploading] cleared and an error message set. *)
Theorem C10_failed_upload_keeps_result (history0 : list JsValue) (file : File)
    (o : Oracle) (w : World) :
  upload_fails o file ->
  fst (exec (uploadFile history0 file) o w) = Returned tt /\
  chat (ui (snd (exec (uploadFile history0 file) o w))) = chat (ui w) /\
  history (ui (snd (exec (uploadFile history0 file) o w))) = history (ui w) /\
  storage (snd (exec (uploadFile history0 file) o w)) = storage w /\
  uploading (ui (snd (exec (uploadFile history0 file) o w))) = false /\
  exists m, error (ui (snd (exec (uploadFile history0 file) o w))) = JStr m.
Proof.
  intros [e Hf|response parsed Hf Hok Hj|response e Hf Hok Hj|response data Hf Hok Hj Hn].
  - rewrite (uploadFile_fetch_rejected _ _ _ _ _ Hf). cbn [fst snd].
    destruct (caught_state (next_interval w) e (upload_started file w))
      as (He & Hu & Hc & Hh & _ & Hs).
    rewrite He. repeat split; try assumption. apply shown_is_text.
  - rewrite (uploadFile_not_ok _ _ _ _ _ Hf _ Hok Hj). cbn [fst snd].
    destruct (caught_state (next_interval w)
                (raised (chosen_message response parsed))
                (response_arrived (next_interval w) response (upload_started file w)))
      as (He & Hu & Hc & Hh & _ & Hs).
    rewrite He. repeat split; try assumption. apply shown_is_text.
  - rewrite (uploadFile_body_rejected _ _ _ _ _ Hf _ Hok Hj). cbn [fst snd].
    destruct (caught_state (next_interval w) e
                (response_arrived (next_interval w) response (upload_started file w)))
      as (He & Hu & Hc & Hh & _ & Hs).
    rewrite He. repeat split; try assumption. apply shown_is_text.
  - rewrite (uploadFile_body_nullish _ _ _ _ _ Hf _ Hok Hj Hn). cbn [fst snd].
    destruct (caught_state (next_interval w) (TypeError_read data "filename")
                (response_arrived (next_interval w) response (upload_started file w)))
      as (He & Hu & Hc & Hh & _ & Hs).
    rewrite He. repeat split; try assumption. apply shown_is_text.
Qed.

Lemma picked_ui (w : World) :
  chat (ui (picked w)) = chat (ui w) /\ history (ui (picked w)) = history (ui w).
Proof. split; reflexivity. Qed.

(** C10 on a result already shown: [a.jpg] is extracted, then the upload
    of a second pick is answered 422; the first result stays the current
    one. *)
Lemma C10_result_survives_422 :
  upload_fails
    (answers_with Unprocessable_422 (JObj {[ "detail" := JStr "Unsupported file type" ]}))
    a_jpg /\
  chat (ui (tap (succeeds_with scenario_payload) fresh)) = mapped noon scenario_payload /\
  chat (ui (snd (exec (uploadFile [] a_jpg)
                   (answers_with Unprocessable_422
                      (JObj {[ "detail" := JStr "Unsupported file type" ]}))
                   (picked (tap (succeeds_with scenario_payload) fresh)))))
    = mapped noon scenario_payload.
Proof.
  assert (Hfails : upload_fails
                     (answers_with Unprocessable_422
                        (JObj {[ "detail" := JStr "Unsupported file type" ]})) a_jpg).
  { eapply bad_status with (response := Unprocessable_422); reflexivity. }
  pose proof (proj1 (proj2 (tap_success scenario_payload fresh eq_refl eq_refl)))
    as Hfirst.
  split; [exact Hfails|]. split; [exact Hfirst|].
  exact (eq_trans
           (proj1 (proj2 (C10_failed_upload_keeps_result [] a_jpg _
                            (picked (tap (succeeds_with scenario_payload) fresh)) Hfails)))
           (eq_trans (proj1 (picked_ui (tap (succeeds_with scenario_payload) fresh)))
              Hfirst)).
Defined.

(** ** Successful uploads (claims C7 and C8) *)

Lemma succeeded_state (data : JsValue) (history0 : list JsValue) (w : World)
    (written : unit + JsError) :
  let c := mapped (clock w) data in
  let w' := upload_settled (settle (history_write c history0) written
                              (result_shown c history0 w)) in
  chat (ui w') = c /\ history (ui w') = nextHistory c history0 /\
  error (ui w') = error (ui w) /\ uploading (ui w') = false /\
  storage w' = match written with
               | inl _ => <["specter_history" :=
                            JSON_stringify (JArr (nextHistory c history0))]> (storage w)
               | inr _ => storage w
               end.
Proof. destruct written; repeat split. Qed.

(** C7: when the upload succeeds and the write of the history record
    rejects, [uploadFile] still returns normally with the new result as
    current result and at the head of the history, no error shown and
    [uploading] cleared; the store keeps what it held; and the state cells
    end as they do when the write resolves. *)
Theorem C7_write_failure_is_swallowed (history0 : list JsValue) (file : File)
    (o o' : Oracle) (w : World) (response : Response) (data : JsValue) (e : JsError) :
  o _ (upload_request file) = Some (inl response) ->
  ok response = true ->
  o _ (Response_json response) = Some (inl data) ->
  nullish data = false ->
  o _ (history_write (mapped (clock w) data) history0) = Some (inr e) ->
  o' _ (upload_request file) = Some (inl response) ->
  o' _ (Response_json response) = Some (inl data) ->
  o' _ (history_write (mapped (clock w) data) history0) = Some (inl tt) ->
  fst (exec (uploadFile history0 file) o w) = Returned tt /\
  chat (ui (snd (exec (uploadFile history0 file) o w))) = mapped (clock w) data /\
  history (ui (snd (exec (uploadFile history0 file) o w)))
    = nextHistory (mapped (clock w) data) history0 /\
  head (history (ui (snd (exec (uploadFile history0 file) o w))))
    = Some (chat (ui (snd (exec (uploadFile history0 file) o w)))) /\
  error (ui (snd (exec (uploadFile history0 file) o w))) = JNull /\
  uploading (ui (snd (exec (uploadFile history0 file) o w))) = false /\
  storage (snd (exec (uploadFile history0 file) o w)) = storage w /\
  ui (snd (exec (uploadFile history0 file) o w))
    = ui (snd (exec (uploadFile history0 file) o' w)).
Proof.
  intros Hf Hok Hj Hn Hs Hf' Hj' Hs'.
  rewrite (uploadFile_succeeds _ _ _ _ _ Hf _ Hok Hj _ Hn Hs).
  rewrite (uploadFile_succeeds _ _ _ _ _ Hf' _ Hok Hj' _ Hn Hs').
  cbn [fst snd]. repeat split.
Qed.

(** C7 at the scenario payload, the write rejecting with a full disk. *)
Lemma C7_disk_full :
  nullish scenario_payload = false /\
  chat (ui (snd (exec (uploadFile [] a_jpg)
                   (write_fails scenario_payload (Error "disk full")) (picked fresh))))
    = mapped noon scenario_payload /\
  history (ui (snd (exec (uploadFile [] a_jpg)
                      (write_fails scenario_payload (Error "disk full")) (picked fresh))))
    = [mapped noon scenario_payload] /\
  storage (snd (exec (uploadFile [] a_jpg)
                  (write_fails scenario_payload (Error "disk full")) (picked fresh)))
    = ∅.
Proof.
  pose proof (C7_write_failure_is_swallowed [] a_jpg
                (write_fails scenario_payload (Error "disk full"))
                (succeeds_with scenario_payload)
                (picked fresh) OK_200 scenario_payload (Error "disk full")
                eq_refl eq_refl eq_refl eq_refl eq_refl eq_refl eq_refl eq_refl)
    as (_ & Hc & Hh & _ & _ & _ & Hs & _).
  split; [reflexivity|]. split; [exact Hc|]. split; [exact Hh|exact Hs].
Defined.

(** C8, counterexample: in a successful upload [setChat] is called before
    [setHistory] (entries 11 and 12 of the journal of the run); an observer
    of the state cells between the two calls sees the new current result
    while the history is still empty, so its head is not that result. *)
Lemma C8_result_exposed_before_history :
  journal (tap (succeeds_with scenario_payload) fresh) !! 11
    = Some (Did (setChat (mapped noon scenario_payload))) /\
  journal (tap (succeeds_with scenario_payload) fresh) !! 12
    = Some (Did (setHistory [mapped noon scenario_payload])) /\
  chat (replay (take 12 (journal (tap (succeeds_with scenario_payload) fresh))) App_initial)
    = mapped noon scenario_payload /\
  history (replay (take 12 (journal (tap (succeeds_with scenario_payload) fresh))) App_initial)
    = [] /\
  replay (journal (tap (succeeds_with scenario_payload) fresh)) App_initial
    = ui (tap (succeeds_with scenario_payload) fresh).
Proof.
  split; [vm_compute; reflexivity|]. split; [vm_compute; reflexivity|].
  split; [vm_compute; reflexivity|]. split; vm_compute; reflexivity.
Qed.

(** C8, amended: in a successful upload the current result is set first
    and the history in the very next call, with no await between the two;
    from then on, while the write of the record is awaited and after the
    upload has ended, the head of the history is the current result. *)
Theorem C8_history_head_is_current_result (history0 : list JsValue) (file : File)
    (o : Oracle) (w : World) (response : Response) (data : JsValue) :
  o _ (upload_request file) = Some (inl response) ->
  ok response = true ->
  o _ (Response_json response) = Some (inl data) ->
  nullish data = false ->
  chat (ui (snd (exec (uploadFile history0 file) o w))) = mapped (clock w) data /\
  head (history (ui (snd (exec (uploadFile history0 file) o w))))
    = Some (chat (ui (snd (exec (uploadFile history0 file) o w)))) /\
  immediately_before
    (Did (setChat (mapped (clock w) data)))
    (Did (setHistory (nextHistory (mapped (clock w) data) history0)))
    (journal (snd (exec (uploadFile history0 file) o w))).
Proof.
  intros Hf Hok Hj Hn.
  destruct (o _ (history_write (mapped (clock w) data) history0)) as [written|] eqn:Hs.
  - rewrite (uploadFile_succeeds _ _ _ _ _ Hf _ Hok Hj _ Hn Hs). cbn [snd].
    split; [now destruct written|]. split; [now destruct written|].
    exists (journal w ++
            [Did (setUploading true); Did (setError JNull); Did (setProgress 0);
             Did (setProgress 0); Called (upload_request file);
             Did (clearInterval (next_interval w)); Did (setProgress 100);
             Called (Response_json response)])%list,
           [Called (history_write (mapped (clock w) data) history0);
            Did (setUploading false); Did setTimeout_resetProgress].
    destruct written; cbn; rewrite <- !app_assoc; reflexivity.
  - destruct (uploadFile_write_pending history0 _ _ w _ Hf _ Hok Hj Hn Hs) as [k ->].
    cbn [snd]. split; [reflexivity|]. split; [reflexivity|].
    exists (journal w ++
            [Did (setUploading true); Did (setError JNull); Did (setProgress 0);
             Did (setProgress 0); Called (upload_request file);
             Did (clearInterval (next_interval w)); Did (setProgress 100);
             Called (Response_json response)])%list,
           [Called (history_write (mapped (clock w) data) history0)].
    cbn; rewrite <- !app_assoc; reflexivity.
Qed.

(** The amended C8 at the scenario payload. *)
Lemma C8_scenario :
  nullish scenario_payload = false /\
  head (history (ui (snd (exec (uploadFile [] a_jpg)
                            (succeeds_with scenario_payload) (picked fresh)))))
    = Some (chat (ui (snd (exec (uploadFile [] a_jpg)
                             (succeeds_with scenario_payload) (picked fresh))))).
Proof.
  split; [reflexivity|].
  exact (proj1 (proj2 (C8_history_head_is_current_result [] a_jpg
                         (succeeds_with scenario_payload) (picked fresh)
                         OK_200 scenario_payload eq_refl eq_refl eq_refl eq_refl))).
Defined.

(** ** Selecting a history entry (claim C9) *)

Lemma uploadFile_history (history0 : list JsValue) (file : File) (o : Oracle) (w : World) :
  history (ui (snd (exec (uploadFile history0 file) o w))) = history (ui w) \/
  exists response data,
    o _ (upload_request file) = Some (inl response) /\ ok response = true /\
    o _ (Response_json response) = Some (inl data) /\ nullish data = false /\
    history (ui (snd (exec (uploadFile history0 file) o w)))
      = nextHistory (mapped (clock w) data) history0.
Proof.
  destruct (o _ (upload_request file)) as [[response|e]|] eqn:Hf.
  - destruct (ok response) eqn:Hok.
    + destruct (o _ (Response_json response)) as [[data|e]|] eqn:Hj.
      * destruct (nullish data) eqn:Hn.
        -- left. now rewrite (uploadFile_body_nullish _ _ _ _ _ Hf _ Hok Hj Hn).
        -- right. exists response, data.
           do 4 (split; [first [assumption|reflexivity]|]).
           destruct (o _ (history_write (mapped (clock w) data) history0))
             as [written|] eqn:Hs.
           ++ rewrite (uploadFile_succeeds _ _ _ _ _ Hf _ Hok Hj _ Hn Hs).
              now destruct written.
           ++ destruct (uploadFile_write_pending history0 _ _ w _ Hf _ Hok Hj Hn Hs)
                as [k ->].
              reflexivity.
      * left. now rewrite (uploadFile_body_rejected _ _ _ _ _ Hf _ Hok Hj).
      * left. destruct (uploadFile_body_pending history0 _ _ w _ Hf Hok Hj) as [k ->].
        reflexivity.
    + destruct (o _ (Response_json response)) as [parsed|] eqn:Hj.
      * left. now rewrite (uploadFile_not_ok _ _ _ _ _ Hf _ Hok Hj).
      * left. destruct (uploadFile_error_body_pending history0 _ _ w _ Hf Hok Hj)
          as [k ->].
        reflexivity.
  - left. now rewrite (uploadFile_fetch_rejected _ _ _ _ _ Hf).
  - left. destruct (uploadFile_fetch_pending history0 _ _ w Hf) as [k ->]. reflexivity.
Qed.

(** C9, counterexample: a result is extracted, a second upload fails with
    "Unsupported file type", and the user selects the stored entry; the
    selection clears the error message as well as setting the current
    result, so it does not change the current-result pointer only. *)
Lemma C9_selecting_clears_the_error :
  history (ui (tap (answers_with Unprocessable_422
                      (JObj {[ "detail" := JStr "Unsupported file type" ]}))
                 (tap (succeeds_with scenario_payload) fresh)))
    = [mapped noon scenario_payload] /\
  error (ui (tap (answers_with Unprocessable_422
                    (JObj {[ "detail" := JStr "Unsupported file type" ]}))
               (tap (succeeds_with scenario_payload) fresh)))
    = JStr "Unsupported file type" /\
  error (ui (press_historyChip 0
               (tap (answers_with Unprocessable_422
                       (JObj {[ "detail" := JStr "Unsupported file type" ]}))
                  (tap (succeeds_with scenario_payload) fresh))))
    = JNull.
Proof.
  split; [vm_compute; reflexivity|]. split; vm_compute; reflexivity.
Qed.

(** C9, amended: selecting a history entry sets the current result to that
    entry and clears the error message, and changes nothing else: the
    history, its entries and their order, [uploading], [progress], the
    timers and the durable store stay as they are (a position without an
    entry changes nothing at all).  Nor do the timer callbacks touch the
    history, and a call of [uploadFile] changes it only when the response
    was ok and its body was parsed to a value other than [null]. *)
Theorem C9_select_changes_result_and_error_only :
  (forall (i : nat) (w : World),
     history (ui (press_historyChip i w)) = history (ui w) /\
     uploading (ui (press_historyChip i w)) = uploading (ui w) /\
     progress (ui (press_historyChip i w)) = progress (ui w) /\
     storage (press_historyChip i w) = storage w /\
     intervals (press_historyChip i w) = intervals w /\
     pending_resets (press_historyChip i w) = pending_resets w /\
     match history (ui w) !! i with
     | Some item =>
         chat (ui (press_historyChip i w)) = item /\
         error (ui (press_historyChip i w)) = JNull
     | None => press_historyChip i w = w
     end) /\
  (forall (interval : nat) (w : World),
     history (ui (interval_fires interval w)) = history (ui w)) /\
  (forall w : World, history (ui (reset_fires w)) = history (ui w)) /\
  (forall (history0 : list JsValue) (file : File) (o : Oracle) (w : World),
     history (ui (snd (exec (uploadFile history0 file) o w))) <> history (ui w) ->
     exists response data,
       o _ (upload_request file) = Some (inl response) /\ ok response = true /\
       o _ (Response_json response) = Some (inl data) /\ nullish data = false).
Proof.
  split; [|split; [|split]].
  - intros i w. unfold press_historyChip.
    destruct (history (ui w) !! i) as [item|]; repeat split.
  - intros interval w. unfold interval_fires.
    destruct (intervals w !! interval) as [current|]; [|reflexivity].
    destruct (90 <=? current + 10)%Z; reflexivity.
  - intros w. unfold reset_fires. destruct (pending_resets w); reflexivity.
  - intros history0 file o w Hchanged.
    destruct (uploadFile_history history0 file o w)
      as [Hsame|(response & data & Hf & Hok & Hj & Hn & _)].
    + contradiction.
    + exists response, data. repeat split; assumption.
Qed.

(** The amended C9 where a result is shown and a later upload has failed:
    selecting entry 0 restores the result and leaves the history alone. *)
Lemma C9_select_after_failure :
  history (ui (press_historyChip 0
                 (tap (answers_with Unprocessable_422
                         (JObj {[ "detail" := JStr "Unsupported file type" ]}))
                    (tap (succeeds_with scenario_payload) fresh))))
  = history (ui (tap (answers_with Unprocessable_422
                        (JObj {[ "detail" := JStr "Unsupported file type" ]}))
                   (tap (succeeds_with scenario_payload) fresh))).
Proof.
  exact (proj1 (proj1 C9_select_changes_result_and_error_only 0
                  (tap (answers_with Unprocessable_422
                          (JObj {[ "detail" := JStr "Unsupported file type" ]}))
                     (tap (succeeds_with scenario_payload) fresh)))).
Defined.

(** ** Every call of [uploadFile] *)

Lemma uploadFile_outcome (history0 : list JsValue) (file : File) (o : Oracle) (w : World) :
  upload_outcome o history0 file w (exec (uploadFile history0 file) o w).
Proof.
  destruct (o _ (upload_request file)) as [[response|e]|] eqn:Hf.
  - destruct (ok response) eqn:Hok.
    + destruct (o _ (Response_json response)) as [[data|e]|] eqn:Hj.
      * destruct (nullish data) eqn:Hn.
        -- rewrite (uploadFile_body_nullish _ _ _ _ _ Hf _ Hok Hj Hn).
           apply response_failed; [exact Hf|congruence].
        -- destruct (o _ (history_write (mapped (clock w) data) history0))
             as [written|] eqn:Hs.
           ++ rewrite (uploadFile_succeeds _ _ _ _ _ Hf _ Hok Hj _ Hn Hs).
              now apply upload_succeeded.
           ++ destruct (uploadFile_write_pending history0 _ _ w _ Hf _ Hok Hj Hn Hs)
                as [k ->].
              now apply awaits_write.
      * rewrite (uploadFile_body_rejected _ _ _ _ _ Hf _ Hok Hj).
        apply response_failed; [exact Hf|congruence].
      * destruct (uploadFile_body_pending history0 _ _ w _ Hf Hok Hj) as [k ->].
        now apply awaits_body.
    + destruct (o _ (Response_json response)) as [parsed|] eqn:Hj.
      * rewrite (uploadFile_not_ok _ _ _ _ _ Hf _ Hok Hj).
        apply response_failed; [exact Hf|congruence].
      * destruct (uploadFile_error_body_pending history0 _ _ w _ Hf Hok Hj) as [k ->].
        now apply awaits_body.
  - rewrite (uploadFile_fetch_rejected _ _ _ _ _ Hf). now apply fetch_failed.
  - destruct (uploadFile_fetch_pending history0 _ _ w Hf) as [k ->].
    now apply awaits_fetch.
Qed.

Lemma journal_upload_started (file : File) (w : World) :
  journal (upload_started file w)
  = (journal w ++ [Did (setUploading true); Did (setError JNull); Did (setProgress 0);
                   Did (setProgress 0); Called (upload_request file)])%list.
Proof. cbn. now rewrite <- !app_assoc. Qed.

Lemma journal_response_arrived (interval : nat) (response : Response) (w : World) :
  journal (response_arrived interval response w)
  = (journal w ++ [Did (clearInterval interval); Did (setProgress 100);
                   Called (Response_json response)])%list.
Proof. cbn. now rewrite <- !app_assoc. Qed.

Lemma journal_upload_settled (w : World) :
  journal (upload_settled w)
  = (journal w ++ [Did (setUploading false); Did setTimeout_resetProgress])%list.
Proof. cbn. now rewrite <- !app_assoc. Qed.

Lemma journal_upload_caught (interval : nat) (e : JsError) (w : World) :
  journal (upload_caught interval e w)
  = (journal w ++ [Did (clearInterval interval); Did (setError (shown e));
                   Did (setUploading false); Did setTimeout_resetProgress])%list.
Proof. cbn. now rewrite <- !app_assoc. Qed.

Lemma journal_result_shown (c : JsValue) (history0 : list JsValue) (w : World) :
  journal (result_shown c history0 w)
  = (journal w ++ [Did (setChat c); Did (setHistory (nextHistory c history0));
                   Called (history_write c history0)])%list.
Proof. cbn. now rewrite <- !app_assoc. Qed.

Lemma journal_settle {R} (p : Promise R) (r : R + JsError) (w : World) :
  journal (settle p r w) = journal w.
Proof. destruct p, r; reflexivity. Qed.

Lemma fetch_calls_app (j1 j2 : list Entry) :
  fetch_calls (j1 ++ j2) = fetch_calls j1 + fetch_calls j2.
Proof. unfold fetch_calls. now rewrite List.filter_app, length_app. Qed.

Lemma shown_truthy (e : JsError) : truthy (shown e) = true.
Proof.
  unfold shown, or_else. destruct (truthy (JStr (message e))) eqn:Ht; [exact Ht|reflexivity].
Qed.

(** X1: [uploadFile] never throws. Whatever the platform answers, a call
    either is still awaiting one of its calls or has returned: every
    rejection and every error raised on the way is caught. *)
Theorem uploadFile_never_throws (history0 : list JsValue) (file : File)
    (o : Oracle) (w : World) :
  match fst (exec (uploadFile history0 file) o w) with
  | Thrown _ => False
  | Returned _ | Awaiting _ _ => True
  end.
Proof. destruct (uploadFile_outcome history0 file o w); exact I. Qed.

(** X2: a call of [uploadFile] issues exactly one [fetch], whatever
    follows: a POST to [API_BASE_URL + "/api/upload"] whose form data has
    the single part ["file"] carrying the file it was given. *)
Theorem uploadFile_fetches_once (history0 : list JsValue) (file : File)
    (o : Oracle) (w : World) :
  fetch_calls (journal (snd (exec (uploadFile history0 file) o w)))
    = S (fetch_calls (journal w)) /\
  Called (fetch "http://192.168.100.35:8000/api/upload" [("file", file)])
    ∈ journal (snd (exec (uploadFile history0 file) o w)).
Proof.
  change (fetch "http://192.168.100.35:8000/api/upload" [("file", file)])
    with (upload_request file).
  destruct (uploadFile_outcome history0 file o w); cbn [snd];
    rewrite ?journal_upload_settled, ?journal_settle, ?journal_result_shown,
      ?journal_upload_caught, ?journal_response_arrived, ?journal_upload_started,
      ?fetch_calls_app;
    (split; [cbn; lia|]); rewrite ?elem_of_app; set_solver.
Qed.

Lemma intervals_upload_started (file : File) (w : World) :
  intervals (upload_started file w) = <[next_interval w := 0%Z]> (intervals w).
Proof. reflexivity. Qed.

Lemma intervals_response_arrived (interval : nat) (response : Response) (w : World) :
  intervals (response_arrived interval response w) = delete interval (intervals w).
Proof. reflexivity. Qed.

Lemma intervals_upload_caught (interval : nat) (e : JsError) (w : World) :
  intervals (upload_caught interval e w) = delete interval (intervals w).
Proof. reflexivity. Qed.

Lemma intervals_after_result (c : JsValue) (history0 : list JsValue) (R : Type)
    (p : Promise R) (r : R + JsError) (w : World) :
  intervals (result_shown c history0 w) = intervals w /\
  intervals (upload_settled w) = intervals w /\
  intervals (settle p r w) = intervals w.
Proof. repeat split. destruct p, r; reflexivity. Qed.

Lemma interval_fires_cleared (interval : nat) (w : World) :
  intervals w !! interval = None -> interval_fires interval w = w.
Proof. unfold interval_fires. now intros ->. Qed.

(** X3: the progress interval lives exactly as long as the [fetch] is
    outstanding.  While the call awaits its [fetch] the interval it started
    is running; once the [fetch] has settled, whichever way, the interval
    is cleared wherever the call stands, and a callback of it that fires
    late changes nothing. *)
Theorem uploadFile_interval_lifetime (history0 : list JsValue) (file : File)
    (o : Oracle) (w : World) :
  match o _ (upload_request file) with
  | None =>
      intervals (snd (exec (uploadFile history0 file) o w)) !! next_interval w
        = Some 0%Z
  | Some _ =>
      intervals (snd (exec (uploadFile history0 file) o w)) !! next_interval w = None /\
      interval_fires (next_interval w) (snd (exec (uploadFile history0 file) o w))
        = snd (exec (uploadFile history0 file) o w)
  end.
Proof.
  assert (Hcleared : forall w' : World,
            intervals w' !! next_interval w = None ->
            intervals w' !! next_interval w = None /\
            interval_fires (next_interval w) w' = w').
  { intros w' H. split; [exact H|now apply interval_fires_cleared]. }
  destruct (uploadFile_outcome history0 file o w) as
    [k Hf|e Hf|response k Hf _|response e Hf _|response data k Hf _ _ _ _
    |response data written Hf _ _ _ _]; rewrite Hf; cbn [snd].
  - rewrite intervals_upload_started. apply lookup_insert_eq.
  - apply Hcleared. rewrite intervals_upload_caught. apply lookup_delete_eq.
  - apply Hcleared. rewrite intervals_response_arrived. apply lookup_delete_eq.
  - apply Hcleared. rewrite intervals_upload_caught. apply lookup_delete_eq.
  - apply Hcleared.
    rewrite (proj1 (intervals_after_result _ _ unit (history_write JNull []) (inl tt) _)).
    rewrite intervals_response_arrived. apply lookup_delete_eq.
  - apply Hcleared.
    rewrite (proj1 (proj2 (intervals_after_result JNull [] unit
                             (history_write JNull []) (inl tt) _))).
    rewrite (proj2 (proj2 (intervals_after_result JNull [] _ _ written _))).
    rewrite (proj1 (intervals_after_result _ _ unit (history_write JNull []) (inl tt) _)).
    rewrite intervals_response_arrived. apply lookup_delete_eq.
Qed.

Lemma returned_world (history0 : list JsValue) (file : File) (o : Oracle) (w : World) :
  fst (exec (uploadFile history0 file) o w) = Returned tt ->
  exists w1, snd (exec (uploadFile history0 file) o w) = upload_settled w1 /\
             pending_resets w1 = pending_resets w /\
             (storage w1 = storage w \/
              exists c, history (ui w1) = nextHistory c history0 /\
                storage w1 = <["specter_history" :=
                               JSON_stringify (JArr (nextHistory c history0))]> (storage w)).
Proof.
  destruct (uploadFile_outcome history0 file o w) as
    [k Hf|e Hf|response k Hf _|response e Hf _|response data k Hf _ _ _ _
    |response data written Hf _ _ _ _]; cbn [fst snd]; try discriminate; intros _.
  - eexists. split; [reflexivity|]. split; [reflexivity|left; reflexivity].
  - eexists. split; [reflexivity|]. split; [reflexivity|left; reflexivity].
  - eexists. split; [reflexivity|]. split; [now destruct written|].
    destruct written as [[]|e]; [right|left; reflexivity].
    exists (mapped (clock w) data). split; reflexivity.
Qed.

(** X4: when a call of [uploadFile] has returned, after a success or
    after a failure, [uploading] is cleared, exactly one reset of the
    progress bar is armed, and once that reset fires the progress is 0 and
    the progress bar is hidden. *)
Theorem uploadFile_returns_idle (history0 : list JsValue) (file : File)
    (o : Oracle) (w : World) :
  fst (exec (uploadFile history0 file) o w) = Returned tt ->
  uploading (ui (snd (exec (uploadFile history0 file) o w))) = false /\
  pending_resets (snd (exec (uploadFile history0 file) o w)) = S (pending_resets w) /\
  progress (ui (reset_fires (snd (exec (uploadFile history0 file) o w)))) = 0%Z /\
  progressContainer_shown (ui (reset_fires (snd (exec (uploadFile history0 file) o w))))
    = false.
Proof.
  intros Hret. destruct (returned_world history0 file o w Hret) as (w1 & -> & Hres & _).
  split; [reflexivity|]. split; [cbn; now rewrite Hres|]. split; reflexivity.
Qed.

(** X4 at a failed upload on a fresh app. *)
Lemma uploadFile_returns_idle_after_422 :
  fst (exec (uploadFile [] a_jpg)
         (answers_with Unprocessable_422 (JObj {[ "detail" := JStr "Unsupported file type" ]}))
         fresh) = Returned tt /\
  progressContainer_shown
    (ui (reset_fires
           (snd (exec (uploadFile [] a_jpg)
                   (answers_with Unprocessable_422
                      (JObj {[ "detail" := JStr "Unsupported file type" ]}))
                   fresh)))) = false.
Proof.
  assert (Hret : fst (exec (uploadFile [] a_jpg)
                        (answers_with Unprocessable_422
                           (JObj {[ "detail" := JStr "Unsupported file type" ]}))
                        fresh) = Returned tt).
  { now rewrite (uploadFile_not_ok [] a_jpg _ fresh Unprocessable_422 eq_refl
                   (inl (JObj {[ "detail" := JStr "Unsupported file type" ]}))
                   eq_refl eq_refl). }
  split; [exact Hret|].
  exact (proj2 (proj2 (proj2 (uploadFile_returns_idle [] a_jpg _ fresh Hret)))).
Defined.

(** X5: a failed upload is never silent: the error it leaves is a
    non-empty string, so the error banner is shown. *)
Theorem failed_upload_shows_banner (history0 : list JsValue) (file : File)
    (o : Oracle) (w : World) :
  upload_fails o file ->
  errorBanner_shown (ui (snd (exec (uploadFile history0 file) o w))) = true /\
  exists m, error (ui (snd (exec (uploadFile history0 file) o w))) = JStr m /\ m <> "".
Proof.
  intros Hfails.
  assert (H : exists e, error (ui (snd (exec (uploadFile history0 file) o w))) = shown e).
  { destruct Hfails as [e Hf|response parsed Hf Hok Hj|response e Hf Hok Hj
                       |response data Hf Hok Hj Hn].
    - rewrite (uploadFile_fetch_rejected _ _ _ _ _ Hf). now eexists.
    - rewrite (uploadFile_not_ok _ _ _ _ _ Hf _ Hok Hj). now eexists.
    - rewrite (uploadFile_body_rejected _ _ _ _ _ Hf _ Hok Hj). now eexists.
    - rewrite (uploadFile_body_nullish _ _ _ _ _ Hf _ Hok Hj Hn). now eexists. }
  unfold errorBanner_shown. destruct H as [e ->].
  split; [apply shown_truthy|].
  destruct (shown_is_text e) as [m Hm]. exists m. split; [exact Hm|].
  intros ->. pose proof (shown_truthy e) as Ht. rewrite Hm in Ht. discriminate Ht.
Qed.

(** X5 when the network is down and the error carries no message. *)
Lemma failed_upload_shows_banner_offline :
  upload_fails (network_fails (Error "")) a_jpg /\
  errorBanner_shown
    (ui (snd (exec (uploadFile [] a_jpg) (network_fails (Error "")) fresh))) = true.
Proof.
  assert (Hfails : upload_fails (network_fails (Error "")) a_jpg).
  { now apply network_failure with (e := Error ""). }
  split; [exact Hfails|].
  exact (proj1 (failed_upload_shows_banner [] a_jpg _ fresh Hfails)).
Defined.

(** ** Picking an image *)

Lemma video_or_else (v a b : JsValue) :
  truthy a = true -> truthy b = true ->
  truthy (match v with JStr "video" => a | _ => b end) = true.
Proof.
  intros Ha Hb.
  repeat match goal with
         | |- context [match ?x with _ => _ end] => destruct x
         end; assumption.
Qed.

(** X7: when the media-library permission is refused, [handlePickImage]
    returns after showing "Permission to access media library is
    required."; it opens no picker and issues no [fetch], and leaves the
    current result, the history and [uploading] as they were. *)
Theorem handlePickImage_permission_denied (uploadFile0 : File -> Prog unit)
    (o : Oracle) (w : World) (permission : Permission) :
  o _ requestMediaLibraryPermissionsAsync = Some (inl permission) ->
  granted permission = false ->
  fst (exec (handlePickImage uploadFile0) o w) = Returned tt /\
  journal (snd (exec (handlePickImage uploadFile0) o w))
    = (journal w ++
       [Did (setError JNull); Called requestMediaLibraryPermissionsAsync;
        Did (setError (JStr "Permission to access media library is required."))])%list /\
  error (ui (snd (exec (handlePickImage uploadFile0) o w)))
    = JStr "Permission to access media library is required." /\
  chat (ui (snd (exec (handlePickImage uploadFile0) o w))) = chat (ui w) /\
  history (ui (snd (exec (handlePickImage uploadFile0) o w))) = history (ui w) /\
  uploading (ui (snd (exec (handlePickImage uploadFile0) o w))) = uploading (ui w).
Proof.
  intros Hp Hdenied. unfold handlePickImage. step. settled Hp.
  rewrite Hdenied. step. cbn [fst snd].
  split; [reflexivity|]. split; [cbn; now rewrite <- !app_assoc|]. repeat split.
Qed.

(** X8: when the user cancels the picker, or the result carries no asset,
    [handlePickImage] returns without calling [uploadFile]: no [fetch] is
    issued and nothing changes but the error, which the handler cleared on
    entry. *)
Theorem handlePickImage_nothing_picked (uploadFile0 : File -> Prog unit)
    (o : Oracle) (w : World) (permission : Permission) (result : PickerResult) :
  o _ requestMediaLibraryPermissionsAsync = Some (inl permission) ->
  granted permission = true ->
  o _ launchImageLibraryAsync = Some (inl result) ->
  canceled result = true \/ assets result = None \/ assets result = Some [] ->
  fst (exec (handlePickImage uploadFile0) o w) = Returned tt /\
  journal (snd (exec (handlePickImage uploadFile0) o w))
    = (journal w ++
       [Did (setError JNull); Called requestMediaLibraryPermissionsAsync;
        Called launchImageLibraryAsync])%list /\
  ui (snd (exec (handlePickImage uploadFile0) o w)) = assign (setError JNull) (ui w) /\
  storage (snd (exec (handlePickImage uploadFile0) o w)) = storage w.
Proof.
  intros Hp Hgranted Hl Hnone. unfold handlePickImage. step. settled Hp.
  rewrite Hgranted. step. settled Hl.
  assert (Hret : match canceled result, assets result with
                 | false, Some (asset :: _) =>
                     uploadFile0 (file_of_asset asset)
                 | _, _ => Ret tt
                 end = Ret tt).
  { destruct Hnone as [->|[->| ->]]; [reflexivity| |]; now destruct (canceled result). }
  unfold file_of_asset in Hret. rewrite Hret. step. cbn [fst snd].
  split; [reflexivity|]. split; [cbn; now rewrite <- !app_assoc|]. repeat split.
Qed.

(** X9: [handlePickImage] catches nothing itself: when the permission
    request or the picker rejects, the rejection leaves the handler as a
    thrown error, after the error message was cleared and before any
    [fetch]. *)
Theorem handlePickImage_rejection_escapes (uploadFile0 : File -> Prog unit)
    (o : Oracle) (w : World) (e : JsError) :
  o _ requestMediaLibraryPermissionsAsync = Some (inr e) \/
  (o _ requestMediaLibraryPermissionsAsync = Some (inl {| granted := true |}) /\
   o _ launchImageLibraryAsync = Some (inr e)) ->
  fst (exec (handlePickImage uploadFile0) o w) = Thrown e /\
  ui (snd (exec (handlePickImage uploadFile0) o w)) = assign (setError JNull) (ui w) /\
  fetch_calls (journal (snd (exec (handlePickImage uploadFile0) o w)))
    = fetch_calls (journal w).
Proof.
  intros [Hp|[Hp Hl]]; unfold handlePickImage; step; settled Hp.
  - cbn [fst snd]. split; [reflexivity|]. split; [reflexivity|].
    cbn [journal perform log update settle]. rewrite !fetch_calls_app. cbn. lia.
  - cbn [granted negb]. step. settled Hl. cbn [fst snd].
    split; [reflexivity|]. split; [reflexivity|].
    cbn [journal perform log update settle]. rewrite !fetch_calls_app. cbn. lia.
Qed.

Lemma upload_request_recorded (history0 : list JsValue) (file : File)
    (o : Oracle) (w : World) :
  Called (upload_request file) ∈ journal (snd (exec (uploadFile history0 file) o w)).
Proof.
  destruct (uploadFile_outcome history0 file o w); cbn [snd];
    rewrite ?journal_upload_settled, ?journal_settle, ?journal_result_shown,
      ?journal_upload_caught, ?journal_response_arrived, ?journal_upload_started;
    rewrite ?elem_of_app; set_solver.
Qed.

(** X10: a tap on the enabled button that ends in a pick uploads the first
    asset of the result: the part ["file"] of the one [fetch] carries the
    asset's uri, its file name or else ["fir_image.jpg"], and as type
    ["video/*"] for a video and otherwise its MIME type or else
    ["image/jpeg"]; so the part always has a name and a type.  The upload
    is done by the [uploadFile] of the first render. *)
Theorem tap_uploads_first_asset (o : Oracle) (w : World) (permission : Permission)
    (result : PickerResult) (asset : Asset) (others : list Asset) :
  uploading (ui w) = false ->
  o _ requestMediaLibraryPermissionsAsync = Some (inl permission) ->
  granted permission = true ->
  o _ launchImageLibraryAsync = Some (inl result) ->
  canceled result = false ->
  assets result = Some (asset :: others) ->
  press_uploadButton o w = exec (uploadFile [] (file_of_asset asset)) o (picked w) /\
  Called (fetch "http://192.168.100.35:8000/api/upload" [("file", file_of_asset asset)])
    ∈ journal (snd (press_uploadButton o w)) /\
  truthy (name (file_of_asset asset)) = true /\
  truthy (type (file_of_asset asset)) = true /\
  (truthy (fileName asset) = false -> name (file_of_asset asset) = JStr "fir_image.jpg") /\
  (asset_type asset = JStr "video" -> type (file_of_asset asset) = JStr "video/*").
Proof.
  intros Hidle Hp Hgranted Hl Hcanceled Hassets.
  assert (Hpress : press_uploadButton o w
                   = exec (uploadFile [] (file_of_asset asset)) o (picked w)).
  { unfold press_uploadButton, uploadButton_disabled. rewrite Hidle.
    unfold App_handlePickImage, useCallback_no_deps, handlePickImage. step.
    settled Hp. rewrite Hgranted. step. settled Hl.
    rewrite Hcanceled, Hassets. reflexivity. }
  split; [exact Hpress|]. split; [|split; [|split; [|split]]].
  - rewrite Hpress. apply upload_request_recorded.
  - now apply or_else_truthy.
  - cbn [type file_of_asset]. apply video_or_else; [reflexivity|now apply or_else_truthy].
  - intros Hno. cbn [name file_of_asset]. unfold or_else. now rewrite Hno.
  - intros Hvideo. cbn [type file_of_asset]. now rewrite Hvideo.
Qed.

(** X10 for a pick that carries neither a file name nor a MIME type. *)
Lemma tap_uploads_unnamed_asset :
  uploading (ui fresh) = false /\
  Called (fetch "http://192.168.100.35:8000/api/upload"
            [("file", {| uri := JStr "file:///x"; name := JStr "fir_image.jpg";
                         type := JStr "image/jpeg" |})])
    ∈ journal
        (snd (press_uploadButton
                (answers (Some (inl {| canceled := false;
                                       assets := Some [ {| asset_uri := JStr "file:///x";
                                                           fileName := JNull;
                                                           asset_type := JStr "image";
                                                           mimeType := JUndefined |} ] |}))
                   None None None)
                fresh)).
Proof.
  split; [reflexivity|].
  exact (proj1 (proj2 (tap_uploads_first_asset
           (answers (Some (inl {| canceled := false;
                                  assets := Some [ {| asset_uri := JStr "file:///x";
                                                      fileName := JNull;
                                                      asset_type := JStr "image";
                                                      mimeType := JUndefined |} ] |}))
              None None None)
           fresh {| granted := true |} _
           {| asset_uri := JStr "file:///x"; fileName := JNull;
              asset_type := JStr "image"; mimeType := JUndefined |} []
           eq_refl eq_refl eq_refl eq_refl eq_refl eq_refl))).
Defined.

(** X7 on a first tap with the permission refused. *)
Lemma handlePickImage_permission_denied_on_first_tap :
  error (ui (snd (exec (handlePickImage (uploadFile [])) permission_refused fresh)))
    = JStr "Permission to access media library is required.".
Proof.
  exact (proj1 (proj2 (proj2 (handlePickImage_permission_denied (uploadFile [])
           permission_refused fresh {| granted := false |} eq_refl eq_refl)))).
Defined.

(** X8 on a first tap that the user cancels. *)
Lemma handlePickImage_nothing_picked_canceled :
  fst (exec (handlePickImage (uploadFile []))
         (answers (Some (inl {| canceled := true; assets := None |})) None None None)
         fresh) = Returned tt.
Proof.
  exact (proj1 (handlePickImage_nothing_picked (uploadFile [])
           (answers (Some (inl {| canceled := true; assets := None |})) None None None)
           fresh {| granted := true |} {| canceled := true; assets := None |}
           eq_refl eq_refl eq_refl (or_introl eq_refl))).
Defined.

(** X9 on a first tap whose picker rejects. *)
Lemma handlePickImage_rejection_escapes_picker :
  fst (exec (handlePickImage (uploadFile []))
         (answers (Some (inr (Error "picker crashed"))) None None None)
         fresh) = Thrown (Error "picker crashed").
Proof.
  exact (proj1 (handlePickImage_rejection_escapes (uploadFile [])
           (answers (Some (inr (Error "picker crashed"))) None None None)
           fresh (Error "picker crashed") (or_intror (conj eq_refl eq_refl)))).
Defined.

(** ** The simulated progress *)

Lemma interval_fires_running (interval : nat) (current : Z) (w : World) :
  intervals w !! interval = Some current ->
  progress (ui (interval_fires interval w)) = Z.min (current + 10) 90 /\
  intervals (interval_fires interval w) !! interval
    = (if (90 <=? current + 10)%Z then None else Some (current + 10)%Z) /\
  (forall other, other <> interval ->
     intervals (interval_fires interval w) !! other = intervals w !! other).
Proof.
  intros Hrun. unfold interval_fires. rewrite Hrun. cbn zeta.
  destruct (Z.leb_spec 90 (current + 10)).
  - cbn. split; [lia|]. split; [apply lookup_delete_eq|].
    intros other Hne. now apply lookup_delete_ne.
  - cbn. split; [lia|]. split; [apply lookup_insert_eq|].
    intros other Hne. now apply lookup_insert_ne.
Qed.

Lemma interval_fires_only_progress (interval : nat) (w : World) :
  uploading (ui (interval_fires interval w)) = uploading (ui w) /\
  error (ui (interval_fires interval w)) = error (ui w) /\
  chat (ui (interval_fires interval w)) = chat (ui w) /\
  history (ui (interval_fires interval w)) = history (ui w) /\
  storage (interval_fires interval w) = storage w.
Proof.
  unfold interval_fires.
  destruct (intervals w !! interval); [cbn zeta; destruct (_ <=? _)%Z|]; repeat split.
Qed.

Lemma ticks_S (n : nat) (interval : nat) (w : World) :
  ticks (S n) interval w = interval_fires interval (ticks n interval w).
Proof. reflexivity. Qed.

Lemma ticks_running (interval : nat) (w : World) (n : nat) :
  intervals w !! interval = Some 0%Z ->
  progress (ui w) = 0%Z ->
  progress (ui (ticks n interval w)) = Z.min (10 * Z.of_nat n) 90 /\
  intervals (ticks n interval w) !! interval
    = (if (n <? 9)%nat then Some (10 * Z.of_nat n)%Z else None).
Proof.
  intros Hrun Hzero. induction n as [|n [IHp IHi]].
  - cbn. split; [now rewrite Hzero|exact Hrun].
  - rewrite ticks_S.
    destruct (Nat.ltb_spec n 9) as [Hlt|Hge].
    + destruct (interval_fires_running _ _ _ IHi) as (Hp & Hi & _).
      rewrite Hp, Hi. split; [lia|].
      destruct (Z.leb_spec 90 (10 * Z.of_nat n + 10)), (Nat.ltb_spec (S n) 9);
        try lia; try reflexivity. f_equal. lia.
    + assert (Hstopped : interval_fires interval (ticks n interval w) = ticks n interval w)
        by (unfold interval_fires; now rewrite IHi).
      rewrite Hstopped, IHp, IHi.
      destruct (Nat.ltb_spec (S n) 9); [lia|]. split; [lia|reflexivity].
Qed.

(** X11: [simulateProgress] sets the progress to 0 and returns the id of a
    new interval; after [n] firings of its callback the progress is
    [min(10 n, 90)], and the interval runs up to the ninth firing, at which
    it clears itself. *)
Theorem simulateProgress_ticks (o : Oracle) (w : World) (n : nat) :
  fst (exec simulateProgress o w) = Returned (next_interval w) /\
  progress (ui (ticks n (next_interval w) (snd (exec simulateProgress o w))))
    = Z.min (10 * Z.of_nat n) 90 /\
  intervals (ticks n (next_interval w) (snd (exec simulateProgress o w)))
    !! next_interval w
    = (if (n <? 9)%nat then Some (10 * Z.of_nat n)%Z else None).
Proof.
  unfold simulateProgress. step. cbn [fst snd]. split; [reflexivity|].
  apply ticks_running; [apply lookup_insert_eq|reflexivity].
Qed.

(** ** What holds in every reachable session *)

Lemma bounded_bind {A B} (pre : A -> Prop) (post : B -> Prop)
    (m : Prog A) (f : A -> Prog B) :
  bounded pre m -> (forall a, pre a -> bounded post (f a)) -> bounded post (bind m f).
Proof.
  intros Hm Hf. induction m as [a|e|eff k IH|k IH|k IH|R p k IH]; cbn in *; auto.
  destruct Hm; auto.
Qed.

Lemma bounded_try_catch {A} (post : A -> Prop) (m : Prog A) (h : JsError -> Prog A) :
  bounded post m -> (forall e, bounded post (h e)) -> bounded post (try_catch m h).
Proof.
  intros Hm Hh. induction m as [a|e|eff k IH|k IH|k IH|R p k IH]; cbn in *; auto.
  destruct Hm; auto.
Qed.

Lemma bounded_finally {A} (post : A -> Prop) (m : Prog A) (f : Prog unit) :
  bounded post m -> bounded (fun _ => True) f -> bounded post (finally m f).
Proof.
  intros Hm Hf. induction m as [a|e|eff k IH|k IH|k IH|R p k IH]; cbn in *; auto.
  - apply (bounded_bind (fun _ => True)); [exact Hf|intros; exact Hm].
  - apply (bounded_bind (fun _ => True)); [exact Hf|intros; exact I].
  - destruct Hm; auto.
Qed.

Lemma bounded_weaken {A} (pre post : A -> Prop) (m : Prog A) :
  (forall a, pre a -> post a) -> bounded pre m -> bounded post m.
Proof.
  intros Himp Hm. induction m as [a|e|eff k IH|k IH|k IH|R p k IH]; cbn in *; auto.
  destruct Hm; auto.
Qed.

Lemma bounded_mappedChat (data : JsValue) : bounded is_result (mappedChat data).
Proof.
  intros now. destruct (nullish data) eqn:Hdata.
  - destruct data; try discriminate; exact I.
  - repeat (rewrite (read_not_nullish data _ Hdata) || program).
    destruct (truthy (field data "original_text")) eqn:Horiginal;
      repeat (rewrite (read_not_nullish data _ Hdata) || program);
      (destruct (truthy (field data "corrected_text")) eqn:Hcorrected;
       repeat (rewrite (read_not_nullish data _ Hdata) || program));
      cbn [bounded]; exists now, data; (split; [exact Hdata|]);
      unfold mapped, mapped_props, or_else; rewrite Horiginal, Hcorrected; reflexivity.
Qed.

Lemma shown_in_bounds (e : JsError) : error_or_null (shown e).
Proof.
  right. unfold shown, or_else. cbn [truthy].
  destruct (String.eqb_spec (message e) "") as [Hempty|Hne]; cbn [negb].
  - exists "Failed to process file". split; [reflexivity|discriminate].
  - exists (message e). split; [reflexivity|exact Hne].
Qed.

Lemma bounded_failure_message (response : Response) :
  bounded (fun _ => True) (failure_message response).
Proof.
  unfold failure_message. program. intros [errJson|e]; program; [|exact I].
  destruct (truthy errJson).
  - unfold read. destruct (get errJson "detail") as [detail|e]; program; [|exact I].
    destruct (truthy detail); exact I.
  - program. destruct (truthy errJson); exact I.
Qed.

(** Every call of the [uploadFile] of the first render is within bounds. *)
Lemma bounded_uploadFile (file : File) : bounded (fun _ => True) (uploadFile [] file).
Proof.
  unfold uploadFile. program. split; [exact I|]. split; [now left|].
  split; [cbn; lia|]. split; [cbn; lia|]. intros interval.
  intros [response|e]; program.
  - split; [exact I|]. split; [cbn; lia|].
    apply bounded_finally; [|repeat split].
    apply bounded_try_catch;
      [|intros e; program; repeat split; apply shown_in_bounds].
    apply (bounded_bind (fun _ => True)).
    + destruct (ok response); program; [exact I|].
      apply (bounded_bind (fun _ => True)); [apply bounded_failure_message|].
      intros message _. destruct (new_Error message); exact I.
    + intros _ _. program. intros [data|e]; program; [|exact I].
      apply (bounded_bind is_result); [apply bounded_mappedChat|].
      intros c Hc. program. split; [exact Hc|]. split.
      { split; [cbn; lia|]. unfold nextHistory. cbn [take]. now repeat constructor. }
      intros [written|e]; exact I.
  - split; [exact I|]. split; [apply shown_in_bounds|]. repeat split.
Qed.

Lemma bounded_handlePickImage (uploadFile0 : File -> Prog unit) :
  (forall file, bounded (fun _ => True) (uploadFile0 file)) ->
  bounded (fun _ => True) (handlePickImage uploadFile0).
Proof.
  intros Hupload. unfold handlePickImage. program. split; [now left|].
  intros [permission|e]; program; [|exact I].
  destruct (granted permission); program.
  - intros [result|e]; program; [|exact I].
    destruct (canceled result); [exact I|].
    destruct (assets result) as [[|asset others]|]; try exact I. apply Hupload.
  - split; [|exact I]. right. eexists. split; [reflexivity|discriminate].
Qed.

Lemma state_assign (eff : Effect) (s : AppState) :
  within_bounds eff -> state_in_bounds s -> state_in_bounds (assign eff s).
Proof.
  unfold state_in_bounds.
  intros Heff (Hlen & Hitems & Hchat & Hprogress & Herror).
  destruct eff; cbn in *; try tauto.
Qed.

Lemma world_perform (eff : Effect) (w : World) :
  within_bounds eff -> world_in_bounds w -> world_in_bounds (perform eff w).
Proof.
  intros Heff [Hui Hint]. split.
  - now apply state_assign.
  - intros interval current. cbn.
    destruct eff; try apply Hint.
    intros [_ Hrun]%lookup_delete_Some. now apply Hint in Hrun.
Qed.

Lemma world_start_interval (w : World) :
  world_in_bounds w -> world_in_bounds (start_interval w).
Proof.
  intros [Hui Hint]. split; [exact Hui|].
  intros interval current. cbn.
  intros [[_ <-]|[_ Hrun]]%lookup_insert_Some; [lia|now apply Hint in Hrun].
Qed.

Lemma world_settle {R} (p : Promise R) (r : R + JsError) (w : World) :
  world_in_bounds w -> world_in_bounds (settle p r w).
Proof. intros Hw. destruct p, r; exact Hw. Qed.

(** A bounded program keeps the world within bounds up to its next stop,
    and what it leaves suspended is bounded again. *)
Lemma exec_bounded {A} (post : A -> Prop) (m : Prog A) (o : Oracle) (w : World) :
  bounded post m -> world_in_bounds w ->
  world_in_bounds (snd (exec m o w)) /\
  match fst (exec m o w) with
  | Awaiting p k => forall r, bounded post (k r)
  | _ => True
  end.
Proof.
  revert w. induction m as [a|e|eff k IH|k IH|k IH|R p k IH]; intros w Hm Hw.
  - now split.
  - now split.
  - destruct Hm as [Heff Hk]. rewrite exec_Do. apply IH; [exact Hk|].
    now apply world_perform.
  - rewrite exec_SetInterval. apply IH; [apply Hm|]. now apply world_start_interval.
  - rewrite exec_Now. apply IH; [apply Hm|exact Hw].
  - destruct (o _ p) as [r|] eqn:Ho.
    + rewrite (exec_Await_settled _ _ _ _ _ Ho). apply IH; [apply Hm|].
      now apply world_settle.
    + rewrite (exec_Await_pending _ _ _ _ Ho). split; [exact Hw|exact Hm].
Qed.

Lemma spawn_in_bounds (m : Prog unit) (o : Oracle) (w : World) (others : list Task) :
  bounded (fun _ => True) m -> world_in_bounds w ->
  Forall (fun task => forall r, bounded (fun _ => True) (continuation task r)) others ->
  session_in_bounds (spawn (exec m o w) others).
Proof.
  intros Hm Hw Hothers. destruct (exec_bounded _ m o w Hm Hw) as [Hw' Hk].
  split; [exact Hw'|]. unfold spawn. cbn [tasks].
  destruct (fst (exec m o w)); [exact Hothers|exact Hothers|].
  constructor; [exact Hk|exact Hothers].
Qed.

Lemma world_interval_fires (interval : nat) (w : World) :
  world_in_bounds w -> world_in_bounds (interval_fires interval w).
Proof.
  intros Hw. unfold interval_fires.
  destruct (intervals w !! interval) as [current|] eqn:Hrun; [|exact Hw]. cbn zeta.
  pose proof (proj2 Hw _ _ Hrun) as Hcurrent.
  destruct (Z.leb_spec 90 (current + 10)).
  - apply world_perform; [cbn; lia|]. now apply world_perform.
  - apply world_perform; [cbn; lia|]. split; [apply Hw|].
    intros other c. cbn.
    intros [[_ <-]|[_ Hother]]%lookup_insert_Some; [lia|now apply (proj2 Hw) in Hother].
Qed.

Lemma turn_in_bounds (s s' : Session) :
  turn s s' -> session_in_bounds s -> session_in_bounds s'.
Proof.
  intros Hturn [Hw Htasks]. destruct Hturn.
  - unfold press_uploadButton. destruct (uploadButton_disabled (ui (world s))).
    + now split.
    + apply spawn_in_bounds; [|exact Hw|exact Htasks].
      apply bounded_handlePickImage. intros file. apply bounded_uploadFile.
  - split; [|exact Htasks]. cbn [world]. unfold press_historyChip.
    destruct (history (ui (world s)) !! i) as [item|] eqn:Hitem; [|exact Hw].
    apply world_perform; [now left|]. apply world_perform; [|exact Hw].
    destruct Hw as [(_ & Hitems & _) _].
    rewrite Forall_lookup in Hitems. exact (Hitems _ _ Hitem).
  - split; [|exact Htasks]. now apply world_interval_fires.
  - split; [|exact Htasks]. cbn [world]. unfold reset_fires.
    destruct (pending_resets (world s)); [exact Hw|].
    apply world_perform; [cbn; lia|]. exact Hw.
  - now split.
  - rewrite H in Htasks. apply Forall_app in Htasks as [Hbefore Hafter].
    apply Forall_cons in Hafter as [Htask Hafter].
    apply spawn_in_bounds; [apply Htask|now apply world_settle|].
    apply Forall_app. now split.
Qed.

Lemma reachable_in_bounds (s : Session) : reachable s -> session_in_bounds s.
Proof.
  induction 1 as [stored now|s s' _ IH Hturn].
  - split; [|constructor]. split; [|intros interval current; cbn [world App_mount intervals]; rewrite lookup_empty; discriminate].
    unfold state_in_bounds. cbn. split; [lia|]. split; [constructor|].
    split; [now left|]. split; [lia|now left].
  - now apply (turn_in_bounds s).
Qed.

(** A run in which the platform answers at once is one of the schedules of
    the event loop: each answered [await] is a turn of its own. *)
Lemma reachable_answered (m : Prog unit) (o : Oracle) (w : World) (others : list Task) :
  reachable (spawn (exec m nobody_answers w) others) ->
  reachable (spawn (exec m o w) others).
Proof.
  revert w. induction m as [a|e|eff k IH|k IH|k IH|R p k IH]; intros w Hsuspended.
  - exact Hsuspended.
  - exact Hsuspended.
  - rewrite exec_Do in *. now apply IH.
  - rewrite exec_SetInterval in *. now apply IH.
  - rewrite exec_Now in *. now apply IH.
  - rewrite (exec_Await_pending p k nobody_answers w eq_refl) in Hsuspended.
    destruct (o _ p) as [r|] eqn:Ho.
    + rewrite (exec_Await_settled _ _ _ _ _ Ho). apply IH.
      exact (reachable_turn _ _ Hsuspended
               (turn_settles (spawn (Awaiting p k, log (Called p) w) others)
                  [] (Suspended _ p k) others r eq_refl)).
    + now rewrite (exec_Await_pending _ _ _ _ Ho).
Qed.

Lemma reachable_press (o : Oracle) (s : Session) :
  reachable s -> reachable (spawn (press_uploadButton o (world s)) (tasks s)).
Proof.
  intros Hs. pose proof (reachable_turn _ _ Hs (turn_uploadButton s)) as Hturn.
  unfold press_uploadButton in *.
  destruct (uploadButton_disabled (ui (world s))); [exact Hturn|].
  now apply reachable_answered.
Qed.

(** A first upload that ran to its end. *)
Lemma reachable_first_upload :
  reachable (spawn (press_uploadButton (answers_with OK_200 scenario_payload) fresh) []).
Proof. exact (reachable_press _ _ (reachable_mount ∅ noon)). Qed.

(** X13: in every session reachable from the mount, whatever the order of
    presses, timers and settling promises, the history holds at most one
    result: each upload stores its result in front of the history of the
    first render, which is empty. *)
Theorem history_holds_at_most_one (s : Session) :
  reachable s -> length (history (ui (world s))) <= 1.
Proof. intros Hs. apply (reachable_in_bounds s Hs). Qed.

(** X13 after a first upload that ran to its end. *)
Lemma history_holds_at_most_one_after_upload :
  length (history (ui (world
    (spawn (press_uploadButton (answers_with OK_200 scenario_payload) fresh) [])))) <= 1.
Proof.
  exact (history_holds_at_most_one _ (reachable_press _ _ (reachable_mount ∅ noon))).
Defined.

(** X14: in every reachable session the progress lies between 0 and 100,
    and the counter of every running interval is below 90. *)
Theorem progress_between_0_and_100 (s : Session) :
  reachable s ->
  (0 <= progress (ui (world s)) <= 100)%Z /\
  forall interval current,
    intervals (world s) !! interval = Some current -> (0 <= current < 90)%Z.
Proof.
  intros Hs. destruct (reachable_in_bounds s Hs) as [[Hui Hintervals] _].
  split; [apply Hui|exact Hintervals].
Qed.

(** X14 while the first [fetch] is pending. *)
Lemma progress_between_0_and_100_fetch_pending :
  (0 <= progress (ui (world
     (spawn (press_uploadButton (answers picks_a_jpg None None None) fresh) [])))
   <= 100)%Z.
Proof.
  exact (proj1 (progress_between_0_and_100 _
                  (reachable_press (answers picks_a_jpg None None None) _
                     (reachable_mount ∅ noon)))).
Defined.

(** X15: in every reachable session the error is [null] or a non-empty
    text, the current result is [null] or a literal [mappedChat] built from
    a response body that was not [null], and so is every entry of the
    history. *)
Theorem error_and_results_well_formed (s : Session) :
  reachable s ->
  error_or_null (error (ui (world s))) /\
  (chat (ui (world s)) = JNull \/ is_result (chat (ui (world s)))) /\
  Forall is_result (history (ui (world s))).
Proof.
  intros Hs. destruct (reachable_in_bounds s Hs) as [[Hui _] _].
  split; [apply Hui|]. split; apply Hui.
Qed.

(** X15 after an upload answered with a 422. *)
Lemma error_and_results_well_formed_after_422 :
  error_or_null (error (ui (world
    (spawn (press_uploadButton (answers_with Unprocessable_422 JNull) fresh) [])))).
Proof.
  exact (proj1 (error_and_results_well_formed _
                  (reachable_press (answers_with Unprocessable_422 JNull) _
                     (reachable_mount ∅ noon)))).
Defined.

(** ** The spinner never outlives the uploads *)

Lemma clears_uploading_balanced {A} (cleared : bool) (m : Prog A) :
  clears_uploading cleared m -> balanced m.
Proof.
  revert cleared. induction m as [a|e|eff k IH|k IH|k IH|R p k IH];
    intros cleared Hm; cbn in *; eauto.
  destruct eff as [[|]| | | | | |]; eauto.
Qed.

Lemma clears_uploading_finally {A} (cleared : bool) (m : Prog A) :
  clears_uploading cleared
    (finally m (call (setUploading false);; call setTimeout_resetProgress)).
Proof.
  revert cleared. induction m as [a|e|eff k IH|k IH|k IH|R p k IH];
    intros cleared; cbn; auto.
  destruct eff; apply IH.
Qed.

Lemma balanced_uploadFile (history0 : list JsValue) (file : File) :
  balanced (uploadFile history0 file).
Proof.
  unfold uploadFile. program. cbn [balanced clears_uploading].
  intros interval r. apply clears_uploading_finally.
Qed.

Lemma balanced_handlePickImage (uploadFile0 : File -> Prog unit) :
  (forall file, balanced (uploadFile0 file)) -> balanced (handlePickImage uploadFile0).
Proof.
  intros Hupload. unfold handlePickImage. program. cbn [balanced].
  intros [permission|e]; program; [|exact I].
  destruct (granted permission); program; [|exact I].
  intros [result|e]; program; [|exact I].
  destruct (canceled result); [exact I|].
  destruct (assets result) as [[|asset others]|]; try exact I. apply Hupload.
Qed.

Lemma uploading_perform (eff : Effect) (w : World) :
  uploading (ui (perform eff w))
  = match eff with setUploading b => b | _ => uploading (ui w) end.
Proof. now destruct eff. Qed.

Lemma uploading_settle {R} (p : Promise R) (r : R + JsError) (w : World) :
  uploading (ui (settle p r w)) = uploading (ui w).
Proof. now destruct p, r. Qed.

(** A run of a program that [clears_uploading] stops with [uploading]
    cleared, unless it is suspended with a rest that clears it. *)
Lemma exec_clears_uploading {A} (cleared : bool) (m : Prog A) (o : Oracle) (w : World) :
  clears_uploading cleared m ->
  (cleared = true -> uploading (ui w) = false) ->
  match fst (exec m o w) with
  | Awaiting p k =>
      (forall r, clears_uploading false (k r)) \/
      ((forall r, balanced (k r)) /\ uploading (ui (snd (exec m o w))) = false)
  | _ => uploading (ui (snd (exec m o w))) = false
  end.
Proof.
  revert cleared w.
  induction m as [a|e|eff k IH|k IH|k IH|R p k IH]; intros cleared w Hm Hw.
  - now apply Hw.
  - now apply Hw.
  - rewrite exec_Do. cbn [clears_uploading] in Hm.
    destruct eff as [b| | | | | |];
      try (apply (IH cleared); [exact Hm|rewrite uploading_perform; exact Hw]).
    apply (IH (negb b)); [exact Hm|]. rewrite uploading_perform. now destruct b.
  - rewrite exec_SetInterval. apply (IH _ cleared); [apply Hm|exact Hw].
  - rewrite exec_Now. apply (IH _ cleared); [apply Hm|exact Hw].
  - destruct (o _ p) as [r|] eqn:Ho.
    + rewrite (exec_Await_settled _ _ _ _ _ Ho).
      apply (IH _ cleared); [apply Hm|]. now rewrite uploading_settle.
    + rewrite (exec_Await_pending _ _ _ _ Ho). cbn [fst snd].
      destruct cleared.
      * right. split; [|now apply Hw].
        intros r. apply (clears_uploading_balanced true), Hm.
      * left. exact Hm.
Qed.

(** A run of a balanced program leaves [uploading] as it was, or set with
    the program suspended as an upload in flight, or cleared. *)
Lemma exec_balanced {A} (m : Prog A) (o : Oracle) (w : World) :
  balanced m ->
  match fst (exec m o w) with
  | Awaiting p k =>
      (forall r, balanced (k r)) /\
      (uploading (ui (snd (exec m o w))) = true ->
       uploading (ui w) = true \/ forall r, clears_uploading false (k r))
  | _ => uploading (ui (snd (exec m o w))) = true -> uploading (ui w) = true
  end.
Proof.
  revert w. induction m as [a|e|eff k IH|k IH|k IH|R p k IH]; intros w Hm.
  - intros Hset; exact Hset.
  - intros Hset; exact Hset.
  - rewrite exec_Do. cbn [balanced] in Hm.
    assert (Hkeeps : forall b, balanced k ->
              uploading (ui (perform eff w)) = (b && uploading (ui w))%bool \/
              uploading (ui (perform eff w)) = uploading (ui w) ->
              match fst (exec k o (perform eff w)) with
              | Awaiting p k0 =>
                  (forall r, balanced (k0 r)) /\
                  (uploading (ui (snd (exec k o (perform eff w)))) = true ->
                   uploading (ui w) = true \/ forall r, clears_uploading false (k0 r))
              | _ => uploading (ui (snd (exec k o (perform eff w)))) = true ->
                     uploading (ui w) = true
              end).
    { intros b Hk Hflag. specialize (IH (perform eff w) Hk).
      assert (Himp : uploading (ui (perform eff w)) = true -> uploading (ui w) = true).
      { destruct Hflag as [-> | ->]; [|auto]. now intros [_ ?]%andb_prop. }
      destruct (fst (exec k o (perform eff w))); [tauto|tauto|].
      destruct IH as [Hbal Hup]. split; [exact Hbal|]. tauto. }
    destruct eff as [[|]| | | | | |];
      try (apply (Hkeeps true Hm); right; apply uploading_perform).
    + pose proof (exec_clears_uploading false k o (perform (setUploading true) w) Hm)
        as Hclears.
      destruct (fst (exec k o (perform (setUploading true) w))).
      * intros Hup. rewrite Hclears in Hup; [discriminate|discriminate].
      * intros Hup. rewrite Hclears in Hup; [discriminate|discriminate].
      * destruct Hclears as [Hclears|[Hbal Hidle]]; [discriminate| |].
        -- split; [|auto]. intros r. now apply (clears_uploading_balanced false).
        -- split; [exact Hbal|]. intros Hup. congruence.
    + apply (Hkeeps false Hm). left. reflexivity.
  - rewrite exec_SetInterval.
    exact (IH (next_interval w) (start_interval w) (Hm (next_interval w))).
  - rewrite exec_Now. exact (IH (clock w) w (Hm (clock w))).
  - destruct (o _ p) as [r|] eqn:Ho.
    + rewrite (exec_Await_settled _ _ _ _ _ Ho).
      specialize (IH r (settle p r (log (Called p) w)) (Hm r)).
      rewrite uploading_settle in IH. exact IH.
    + rewrite (exec_Await_pending _ _ _ _ Ho). cbn [fst snd]. split; [exact Hm|auto].
Qed.

Lemma spawn_balanced (m : Prog unit) (o : Oracle) (w : World) (others : list Task) :
  balanced m ->
  Forall (fun task => forall r, balanced (continuation task r)) others ->
  (uploading (ui w) = true -> Exists upload_in_flight others) ->
  spinner_accounted (spawn (exec m o w) others).
Proof.
  intros Hm Hothers Hflight. pose proof (exec_balanced m o w Hm) as Hrun.
  unfold spinner_accounted, spawn. cbn [world tasks].
  destruct (fst (exec m o w)) as [a|e|R p k].
  - split; [exact Hothers|]. auto.
  - split; [exact Hothers|]. auto.
  - destruct Hrun as [Hbal Hup]. split; [constructor; assumption|].
    intros Hset. destruct (Hup Hset) as [Hbefore|Hclears].
    + apply Exists_cons_tl. auto.
    + apply Exists_cons_hd. exact Hclears.
Qed.

Lemma spawn_in_flight (m : Prog unit) (o : Oracle) (w : World) (others : list Task) :
  clears_uploading false m ->
  Forall (fun task => forall r, balanced (continuation task r)) others ->
  spinner_accounted (spawn (exec m o w) others).
Proof.
  intros Hm Hothers.
  pose proof (exec_clears_uploading false m o w Hm) as Hrun.
  unfold spinner_accounted, spawn. cbn [world tasks].
  destruct (fst (exec m o w)) as [a|e|R p k].
  - split; [exact Hothers|]. intros Hset. rewrite Hrun in Hset; discriminate.
  - split; [exact Hothers|]. intros Hset. rewrite Hrun in Hset; discriminate.
  - destruct Hrun as [Hclears|[Hbal Hidle]]; [discriminate| |].
    + split; [|intros _; apply Exists_cons_hd; exact Hclears].
      constructor; [|exact Hothers].
      intros r. now apply (clears_uploading_balanced false).
    + split; [constructor; assumption|]. intros Hset. congruence.
Qed.

Lemma turn_spinner (s s' : Session) :
  turn s s' -> spinner_accounted s -> spinner_accounted s'.
Proof.
  intros Hturn [Hbal Hflight]. destruct Hturn.
  - unfold press_uploadButton. destruct (uploadButton_disabled (ui (world s))).
    + now split.
    + apply spawn_balanced; [|exact Hbal|exact Hflight].
      apply balanced_handlePickImage. intros file. apply balanced_uploadFile.
  - split; [exact Hbal|]. cbn [world tasks]. intros Hset. apply Hflight.
    unfold press_historyChip in Hset.
    now destruct (history (ui (world s)) !! i).
  - split; [exact Hbal|]. cbn [world tasks]. intros Hset. apply Hflight.
    now rewrite (proj1 (interval_fires_only_progress _ _)) in Hset.
  - split; [exact Hbal|]. cbn [world tasks]. intros Hset. apply Hflight.
    unfold reset_fires in Hset. now destruct (pending_resets (world s)).
  - now split.
  - rewrite H in Hbal, Hflight.
    apply Forall_app in Hbal as [Hbefore Hafter].
    apply Forall_cons in Hafter as [Htask Hafter].
    assert (Hothers : Forall (fun task => forall r, balanced (continuation task r))
                        (before ++ after)) by (apply Forall_app; now split).
    unfold resume.
    destruct (uploading (ui (world s))) eqn:Hset.
    + specialize (Hflight eq_refl).
      apply Exists_app in Hflight as [Hin|Hin].
      * apply spawn_balanced; [apply Htask|exact Hothers|].
        intros _. apply Exists_app. now left.
      * apply Exists_cons in Hin as [Hin|Hin].
        -- apply spawn_in_flight; [apply Hin|exact Hothers].
        -- apply spawn_balanced; [apply Htask|exact Hothers|].
           intros _. apply Exists_app. now right.
    + apply spawn_balanced; [apply Htask|exact Hothers|].
      rewrite uploading_settle, Hset. discriminate.
Qed.

Lemma reachable_spinner (s : Session) : reachable s -> spinner_accounted s.
Proof.
  induction 1 as [stored now|s s' _ IH Hturn].
  - split; [constructor|]. discriminate.
  - now apply (turn_spinner s).
Qed.

(** X16: the spinner never outlives the uploads.  In every reachable
    session in which [uploading] is set, some handler is suspended at an
    [await] as an upload in flight: however its promise settles, and
    however the later ones do, it ends with [setUploading(false)]. *)
Theorem spinner_has_upload_in_flight (s : Session) :
  reachable s ->
  uploading (ui (world s)) = true ->
  Exists upload_in_flight (tasks s).
Proof. intros Hs. apply (reachable_spinner s Hs). Qed.

(** X16 while the first [fetch] is pending. *)
Lemma spinner_has_upload_in_flight_fetch_pending :
  Exists upload_in_flight
    (tasks (spawn (press_uploadButton (answers picks_a_jpg None None None) fresh) [])).
Proof.
  exact (spinner_has_upload_in_flight _
           (reachable_press (answers picks_a_jpg None None None) _
              (reachable_mount ∅ noon))
           eq_refl).
Defined.

(** ** No interval outlives its upload *)

Lemma clears_interval_done {A} (interval : nat) (m : Prog A) :
  clears_interval interval true m.
Proof.
  induction m as [a|e|eff k IH|k IH|k IH|R p k IH]; cbn; auto.
  destruct eff; exact IH.
Qed.

Lemma starts_no_interval_tidy {A} (m : Prog A) : starts_no_interval m -> tidy m.
Proof.
  induction m as [a|e|eff k IH|k IH|k IH|R p k IH]; cbn; auto. contradiction.
Qed.

Lemma starts_no_interval_bind {A B} (m : Prog A) (f : A -> Prog B) :
  starts_no_interval m -> (forall a, starts_no_interval (f a)) ->
  starts_no_interval (bind m f).
Proof. induction m as [a|e|eff k IH|k IH|k IH|R p k IH]; cbn; auto. Qed.

Lemma starts_no_interval_try_catch {A} (m : Prog A) (h : JsError -> Prog A) :
  starts_no_interval m -> (forall e, starts_no_interval (h e)) ->
  starts_no_interval (try_catch m h).
Proof. induction m as [a|e|eff k IH|k IH|k IH|R p k IH]; cbn; auto. Qed.

Lemma starts_no_interval_finally {A} (m : Prog A) (f : Prog unit) :
  starts_no_interval m -> starts_no_interval f -> starts_no_interval (finally m f).
Proof.
  induction m as [a|e|eff k IH|k IH|k IH|R p k IH]; cbn; auto;
    intros _ Hf; apply starts_no_interval_bind; auto; intros; exact I.
Qed.

Lemma starts_no_interval_read (v : JsValue) (k : string) : starts_no_interval (read v k).
Proof. unfold read. destruct (get v k); exact I. Qed.

Lemma starts_no_interval_mappedChat (data : JsValue) :
  starts_no_interval (mappedChat data).
Proof.
  intros now.
  repeat first
    [ exact I
    | apply starts_no_interval_read
    | apply starts_no_interval_bind; [|intros ?]
    | match goal with |- starts_no_interval (if ?b then _ else _) => destruct b end ].
Qed.

Lemma starts_no_interval_failure_message (response : Response) :
  starts_no_interval (failure_message response).
Proof.
  unfold failure_message. program. intros [errJson|e]; program; [|exact I].
  destruct (truthy errJson).
  - unfold read. destruct (get errJson "detail") as [detail|e]; program; [|exact I].
    destruct (truthy detail); exact I.
  - program. destruct (truthy errJson); exact I.
Qed.

Lemma tidy_uploadFile (history0 : list JsValue) (file : File) :
  tidy (uploadFile history0 file).
Proof.
  unfold uploadFile. program. cbn [tidy]. intros interval. split.
  - cbn [clears_interval]. intros [response|e]; program;
      cbn [clears_interval orb]; rewrite Nat.eqb_refl;
      first [apply clears_interval_done|reflexivity].
  - cbn [starts_no_interval]. intros [response|e]; program; [|exact I].
    cbn [starts_no_interval].
    apply starts_no_interval_finally; [|exact I].
    apply starts_no_interval_try_catch; [|intros e; exact I].
    apply starts_no_interval_bind.
    + destruct (ok response); program; [exact I|].
      apply starts_no_interval_bind; [apply starts_no_interval_failure_message|].
      intros message. destruct (new_Error message); exact I.
    + intros _. program. intros [data|e]; program; [|exact I].
      apply starts_no_interval_bind; [apply starts_no_interval_mappedChat|].
      intros c. program. cbn [starts_no_interval]. intros [written|e]; exact I.
Qed.

Lemma tidy_handlePickImage (uploadFile0 : File -> Prog unit) :
  (forall file, tidy (uploadFile0 file)) -> tidy (handlePickImage uploadFile0).
Proof.
  intros Hupload. unfold handlePickImage. program. cbn [tidy].
  intros [permission|e]; program; [|exact I].
  destruct (granted permission); program; [|exact I].
  intros [result|e]; program; [|exact I].
  destruct (canceled result); [exact I|].
  destruct (assets result) as [[|asset others]|]; try exact I. apply Hupload.
Qed.

Lemma intervals_perform (eff : Effect) (w : World) (interval : nat) (current : Z) :
  intervals (perform eff w) !! interval = Some current ->
  intervals w !! interval = Some current /\
  match eff with clearInterval j => j <> interval | _ => True end.
Proof.
  destruct eff; cbn; auto. now intros [? ?]%lookup_delete_Some.
Qed.

Lemma intervals_settle {R} (p : Promise R) (r : R + JsError) (w : World) :
  intervals (settle p r w) = intervals w /\
  next_interval (settle p r w) = next_interval w.
Proof. now destruct p, r. Qed.

(** A program that starts no interval only stops intervals. *)
Lemma exec_starts_no_interval {A} (m : Prog A) (o : Oracle) (w : World) :
  starts_no_interval m ->
  next_interval (snd (exec m o w)) = next_interval w /\
  (forall interval current,
     intervals (snd (exec m o w)) !! interval = Some current ->
     intervals w !! interval = Some current) /\
  match fst (exec m o w) with
  | Awaiting p k => forall r, starts_no_interval (k r)
  | _ => True
  end.
Proof.
  revert w. induction m as [a|e|eff k IH|k IH|k IH|R p k IH]; intros w Hm.
  - now repeat split.
  - now repeat split.
  - rewrite exec_Do. destruct (IH (perform eff w) Hm) as (Hnext & Hkeys & Hrest).
    split; [exact Hnext|]. split; [|exact Hrest].
    intros interval current Hrun. now apply Hkeys, intervals_perform in Hrun.
  - contradiction.
  - rewrite exec_Now. exact (IH (clock w) w (Hm (clock w))).
  - destruct (o _ p) as [r|] eqn:Ho.
    + rewrite (exec_Await_settled _ _ _ _ _ Ho).
      destruct (IH r (settle p r (log (Called p) w)) (Hm r)) as (Hnext & Hkeys & Hrest).
      destruct (intervals_settle p r (log (Called p) w)) as [Hsame Hsame'].
      rewrite Hsame in Hkeys. rewrite Hsame' in Hnext. now repeat split.
    + rewrite (exec_Await_pending _ _ _ _ Ho). now repeat split.
Qed.

(** A run of a program that clears an interval stops with the interval
    cleared, unless it is suspended with a rest that clears it. *)
Lemma exec_clears_interval {A} (interval : nat) (cleared : bool) (m : Prog A)
    (o : Oracle) (w : World) :
  clears_interval interval cleared m ->
  interval < next_interval w ->
  (cleared = true -> intervals w !! interval = None) ->
  match fst (exec m o w) with
  | Awaiting p k =>
      (forall r, clears_interval interval false (k r)) \/
      intervals (snd (exec m o w)) !! interval = None
  | _ => intervals (snd (exec m o w)) !! interval = None
  end.
Proof.
  revert cleared w.
  induction m as [a|e|eff k IH|k IH|k IH|R p k IH]; intros cleared w Hm Hold Hw.
  - now apply Hw.
  - now apply Hw.
  - rewrite exec_Do. cbn [clears_interval] in Hm.
    destruct eff as [b| | | | |j|];
      try (apply (IH cleared); [exact Hm|exact Hold|exact Hw]).
    apply (IH (cleared || Nat.eqb j interval)%bool); [exact Hm|exact Hold|].
    intros [Hc|Heq%Nat.eqb_eq]%orb_prop; cbn.
    + rewrite lookup_delete_None. right. now apply Hw.
    + subst j. apply lookup_delete_eq.
  - rewrite exec_SetInterval. apply (IH _ cleared); [apply Hm|cbn; lia|].
    intros Hc. cbn. rewrite lookup_insert_ne by lia. now apply Hw.
  - rewrite exec_Now. apply (IH _ cleared); [apply Hm|exact Hold|exact Hw].
  - destruct (o _ p) as [r|] eqn:Ho.
    + rewrite (exec_Await_settled _ _ _ _ _ Ho).
      destruct (intervals_settle p r (log (Called p) w)) as [Hsame Hsame'].
      apply (IH _ cleared); [apply Hm|now rewrite Hsame'|now rewrite Hsame].
    + rewrite (exec_Await_pending _ _ _ _ Ho). cbn [fst snd].
      destruct cleared; [right; now apply Hw|left; exact Hm].
Qed.

(** A run of a tidy program leaves running only intervals that ran before,
    or one it started and still owes the clearing of. *)
Lemma exec_tidy {A} (m : Prog A) (o : Oracle) (w : World) :
  tidy m ->
  (forall interval current,
     intervals w !! interval = Some current -> interval < next_interval w) ->
  (forall interval current,
     intervals (snd (exec m o w)) !! interval = Some current ->
     interval < next_interval (snd (exec m o w))) /\
  (forall interval current,
     intervals (snd (exec m o w)) !! interval = Some current ->
     intervals w !! interval = Some current \/
     match fst (exec m o w) with
     | Awaiting p k => forall r, clears_interval interval false (k r)
     | _ => False
     end) /\
  match fst (exec m o w) with
  | Awaiting p k => forall r, tidy (k r)
  | _ => True
  end.
Proof.
  revert w. induction m as [a|e|eff k IH|k IH|k IH|R p k IH]; intros w Hm Hw.
  - split; [exact Hw|]. split; [auto|exact I].
  - split; [exact Hw|]. split; [auto|exact I].
  - rewrite exec_Do.
    destruct (IH (perform eff w) Hm) as (Hfresh & Hkeys & Hrest).
    { intros interval current Hrun%intervals_perform. now apply (Hw _ current). }
    split; [exact Hfresh|]. split; [|exact Hrest].
    intros interval current Hrun.
    destruct (Hkeys _ _ Hrun) as [Hbefore%intervals_perform|Hsuspended]; tauto.
  - rewrite exec_SetInterval. destruct (Hm (next_interval w)) as [Hclears Hno].
    destruct (exec_starts_no_interval (k (next_interval w)) o (start_interval w) Hno)
      as (Hnext & Hkeys & Hrest).
    pose proof (exec_clears_interval (next_interval w) false (k (next_interval w)) o
                  (start_interval w) Hclears (Nat.lt_succ_diag_r _)) as Hcleared.
    split; [|split].
    + intros interval current Hrun. rewrite Hnext. apply Hkeys in Hrun. cbn in Hrun.
      apply lookup_insert_Some in Hrun as [[<- _]|[_ Hrun]]; [cbn; lia|].
      apply Hw in Hrun. cbn. lia.
    + intros interval current Hrun.
      destruct (decide (interval = next_interval w)) as [->|Hne].
      * right. destruct (fst (exec (k (next_interval w)) o (start_interval w))).
        -- rewrite Hcleared in Hrun; [discriminate|discriminate].
        -- rewrite Hcleared in Hrun; [discriminate|discriminate].
        -- destruct Hcleared as [Hk|Hgone]; [discriminate|exact Hk|congruence].
      * left. apply Hkeys in Hrun. cbn in Hrun.
        now rewrite lookup_insert_ne in Hrun by congruence.
    + destruct (fst (exec (k (next_interval w)) o (start_interval w))); try exact I.
      intros r. apply starts_no_interval_tidy, Hrest.
  - rewrite exec_Now. exact (IH (clock w) w (Hm (clock w)) Hw).
  - destruct (o _ p) as [r|] eqn:Ho.
    + rewrite (exec_Await_settled _ _ _ _ _ Ho).
      destruct (intervals_settle p r (log (Called p) w)) as [Hsame Hsame'].
      destruct (IH r (settle p r (log (Called p) w)) (Hm r)) as (Hfresh & Hkeys & Hrest).
      { rewrite Hsame, Hsame'. exact Hw. }
      rewrite Hsame in Hkeys. now repeat split.
    + rewrite (exec_Await_pending _ _ _ _ Ho). cbn [fst snd].
      split; [exact Hw|]. split; [auto|exact Hm].
Qed.

Lemma spawn_tidy (m : Prog unit) (o : Oracle) (w : World) (others : list Task) :
  tidy m ->
  (forall interval current,
     intervals w !! interval = Some current -> interval < next_interval w) ->
  Forall (fun task => forall r, tidy (continuation task r)) others ->
  (forall interval current,
     intervals w !! interval = Some current ->
     Exists (owes_clearInterval interval) others \/ clears_interval interval false m) ->
  intervals_accounted (spawn (exec m o w) others).
Proof.
  intros Hm Hw Hothers Howed.
  destruct (exec_tidy m o w Hm Hw) as (Hfresh & Hkeys & Hrest).
  unfold intervals_accounted, spawn. cbn [world tasks].
  split; [exact Hfresh|]. split.
  - destruct (fst (exec m o w)); [exact Hothers|exact Hothers|].
    constructor; [exact Hrest|exact Hothers].
  - intros interval current Hrun.
    destruct (Hkeys _ _ Hrun) as [Hbefore|Hsuspended].
    + destruct (Howed _ _ Hbefore) as [Hin|Hclears].
      * destruct (fst (exec m o w)); [exact Hin|exact Hin|].
        now apply Exists_cons_tl.
      * pose proof (exec_clears_interval interval false m o w Hclears
                      (Hw _ _ Hbefore)) as Hcleared.
        destruct (fst (exec m o w)).
        -- rewrite Hcleared in Hrun; discriminate.
        -- rewrite Hcleared in Hrun; discriminate.
        -- destruct Hcleared as [Hk|Hgone]; [discriminate| |congruence].
           apply Exists_cons_hd. exact Hk.
    + destruct (fst (exec m o w)); [contradiction|contradiction|].
      apply Exists_cons_hd. exact Hsuspended.
Qed.

Lemma same_intervals (w : World) (s : Session) :
  intervals_accounted s ->
  next_interval w = next_interval (world s) ->
  (forall interval current,
     intervals w !! interval = Some current ->
     exists before, intervals (world s) !! interval = Some before) ->
  intervals_accounted {| world := w; tasks := tasks s |}.
Proof.
  intros (Hfresh & Htidy & Howed) Hnext Hkeys.
  unfold intervals_accounted. cbn [world tasks]. rewrite Hnext.
  split; [|split; [exact Htidy|]].
  - intros interval current [before Hrun]%Hkeys. now apply (Hfresh _ before).
  - intros interval current [before Hrun]%Hkeys. now apply (Howed _ before).
Qed.

Lemma turn_intervals (s s' : Session) :
  turn s s' -> intervals_accounted s -> intervals_accounted s'.
Proof.
  intros Hturn Hs. destruct Hturn.
  - unfold press_uploadButton. destruct (uploadButton_disabled (ui (world s))).
    + apply same_intervals; [exact Hs|reflexivity|eauto].
    + destruct Hs as (Hfresh & Htidy & Howed).
      apply spawn_tidy; [|exact Hfresh|exact Htidy|eauto].
      apply tidy_handlePickImage. intros file. apply tidy_uploadFile.
  - apply same_intervals; [exact Hs| |]; unfold press_historyChip;
      destruct (history (ui (world s)) !! i); cbn; eauto.
  - apply same_intervals; [exact Hs| |]; unfold interval_fires;
      destruct (intervals (world s) !! interval) as [c|] eqn:Hrun; eauto;
      cbn zeta; destruct (_ <=? _)%Z; cbn; eauto.
    + intros j current [_ Hj]%lookup_delete_Some. eauto.
    + intros j current [[<- _]|[_ Hj]]%lookup_insert_Some; eauto.
  - apply same_intervals; [exact Hs| |]; unfold reset_fires;
      destruct (pending_resets (world s)); cbn; eauto.
  - apply same_intervals; [exact Hs|reflexivity|eauto].
  - destruct Hs as (Hfresh & Htidy & Howed). rewrite H in Htidy, Howed.
    apply Forall_app in Htidy as [Hbefore Hafter].
    apply Forall_cons in Hafter as [Htask Hafter].
    destruct (intervals_settle (awaited task) r (world s)) as [Hsame Hsame'].
    unfold resume. apply spawn_tidy.
    + apply Htask.
    + rewrite Hsame, Hsame'. exact Hfresh.
    + apply Forall_app. now split.
    + rewrite Hsame. intros interval current Hrun.
      apply Howed, Exists_app in Hrun as [Hin|Hin].
      * left. apply Exists_app. now left.
      * apply Exists_cons in Hin as [Hin|Hin]; [right; apply Hin|].
        left. apply Exists_app. now right.
Qed.

Lemma reachable_intervals (s : Session) : reachable s -> intervals_accounted s.
Proof.
  induction 1 as [stored now|s s' _ IH Hturn].
  - unfold intervals_accounted. cbn [world tasks App_mount intervals].
    split; [|split; [constructor|]]; intros interval current;
      rewrite lookup_empty; discriminate.
  - now apply (turn_intervals s).
Qed.

(** X17: no interval outlives its upload.  In every reachable session
    each running interval has a handler suspended at an [await] that
    calls [clearInterval] on it however its promise settles; so no
    upload that has finished has left its progress timer running. *)
Theorem running_interval_has_owner (s : Session) (interval : nat) (current : Z) :
  reachable s ->
  intervals (world s) !! interval = Some current ->
  Exists (owes_clearInterval interval) (tasks s).
Proof. intros Hs. apply (reachable_intervals s Hs). Qed.

(** X17 while the first [fetch] is pending. *)
Lemma running_interval_has_owner_fetch_pending :
  Exists (owes_clearInterval 0)
    (tasks (spawn (press_uploadButton (answers picks_a_jpg None None None) fresh) [])).
Proof.
  exact (running_interval_has_owner _ 0 0%Z
           (reachable_press (answers picks_a_jpg None None None) _
              (reachable_mount ∅ noon))
           eq_refl).
Defined.

(** ** Disciplines *)

(** A computation in the middle of a [try] inside a [try ... finally]
    hands its value to the rest, or its error to the handler. *)
Lemma follows_computes (d : Discipline) {A B} (post : A -> Prop) (m : Prog A)
    (f : A -> Prog B) (h : JsError -> Prog B) (g : Prog unit) (q : mode d) :
  computes post m ->
  (forall a, post a -> follows d q (finally (try_catch (f a) h) g)) ->
  (forall e, follows d q (finally (h e) g)) ->
  follows d q (finally (try_catch (bind m f) h) g).
Proof.
  intros Hm Hf Hh. induction m as [a|e|eff k IH|k IH|k IH|R p k IH]; cbn in Hm.
  - now apply Hf.
  - apply Hh.
  - contradiction.
  - contradiction.
  - intros now. apply IH, Hm.
  - contradiction.
Qed.

Section Following.
Variable d : Discipline.
Variable holds : mode d -> World -> Prop.
Hypothesis holds_perform :
  forall q eff w, allows d q eff -> holds q w -> holds (after_effect d q eff) (perform eff w).
Hypothesis holds_start_interval : forall q w, holds q w -> holds q (start_interval w).
Hypothesis holds_log : forall q e w, holds q w -> holds q (log e w).

(** A handler that follows a discipline runs to its next [await] in a
    mode that holds of the world it leaves, and what it leaves suspended
    follows the discipline again. *)
Lemma exec_follows {A} (m : Prog A) (q : mode d) (w : World) :
  follows d q m ->
  holds q w ->
  exists q',
    holds q' (snd (exec m nobody_answers w)) /\
    match fst (exec m nobody_answers w) with
    | Awaiting p k =>
        promised d q' _ p /\ forall r, follows d (after_await d q' _ p r) (k r)
    | _ => True
    end.
Proof.
  revert q w. induction m as [a|e|eff k IH|k IH|k IH|R p k IH]; intros q w Hm Hw.
  - exists q. now split.
  - exists q. now split.
  - destruct Hm as [Heff Hk]. rewrite exec_Do. apply (IH (after_effect d q eff)); auto.
  - rewrite exec_SetInterval. apply (IH _ q); [apply Hm|auto].
  - rewrite exec_Now. apply (IH _ q); [apply Hm|exact Hw].
  - rewrite (exec_Await_pending p k nobody_answers w eq_refl). cbn [fst snd].
    exists q. split; [auto|exact Hm].
Qed.

End Following.

Lemma computes_mappedChat (data : JsValue) : computes is_result (mappedChat data).
Proof.
  intros now. destruct (nullish data) eqn:Hdata.
  - destruct data; try discriminate; exact I.
  - repeat (rewrite (read_not_nullish data _ Hdata) || program).
    destruct (truthy (field data "original_text")) eqn:Horiginal;
      repeat (rewrite (read_not_nullish data _ Hdata) || program);
      (destruct (truthy (field data "corrected_text")) eqn:Hcorrected;
       repeat (rewrite (read_not_nullish data _ Hdata) || program));
      cbn [computes]; exists now, data; (split; [exact Hdata|]);
      unfold mapped, mapped_props, or_else; rewrite Horiginal, Hcorrected; reflexivity.
Qed.

(** Walks a handler along its calls and awaits, by cases on what each
    await, test and conversion yields; the calls and the promises are
    left to be checked against the discipline. *)
Ltac walk discipline :=
  repeat first
    [ progress program
    | progress cbn [follows evaluate call]
    | progress discipline
    | match goal with
      | |- True => exact I
      | |- follows _ _ (finally (try_catch (bind (mappedChat _) _) _) _) =>
          apply (follows_computes _ is_result); [apply computes_mappedChat| |]
      | |- follows _ _ (handlePickImage _) => unfold handlePickImage
      | |- follows _ _ (uploadFile _ _) => unfold uploadFile
      | |- _ /\ _ => split
      | |- forall _, _ => intro
      | |- context [mbind _ (mappedChat _)] => unfold mbind, Prog_bind
      | |- context [failure_message _] => unfold failure_message
      | |- context [read ?v ?k] => unfold read; destruct (get v k)
      | |- context [evaluate ?r] => destruct r
      | |- context [match ?r with inl _ => _ | inr _ => _ end] => destruct r
      | |- context [if ?b then _ else _] => destruct b
      | |- context [match assets ?r with _ => _ end] => destruct (assets r) as [[|? ?]|]
      end ].

(** *** The durable store *)

Lemma keeps_store_handlePickImage :
  follows store_discipline tt (handlePickImage (uploadFile [])).
Proof.
  walk ltac:(cbn [mode allows after_effect promised after_await store_discipline
                  writes_history nextHistory take]).
  all: first [reflexivity|eexists; split; [eassumption|reflexivity]].
Qed.

Lemma exec_nobody_storage {A} (m : Prog A) (w : World) :
  storage (snd (exec m nobody_answers w)) = storage w.
Proof.
  revert w. induction m as [a|e|eff k IH|k IH|k IH|R p k IH]; intros w.
  - reflexivity.
  - reflexivity.
  - rewrite exec_Do. now rewrite IH.
  - rewrite exec_SetInterval. now rewrite IH.
  - rewrite exec_Now. apply IH.
  - now rewrite (exec_Await_pending p k nobody_answers w eq_refl).
Qed.

Lemma spawn_store (m : Prog unit) (w : World) (others : list Task) :
  follows store_discipline tt m ->
  Forall (fun task => writes_history (awaited task) /\
                      forall r, follows store_discipline tt (continuation task r))
    others ->
  store_accounted (spawn (exec m nobody_answers w) others).
Proof.
  intros Hm Hothers.
  destruct (exec_follows store_discipline (fun _ _ => True)
              (fun _ _ _ _ _ => I) (fun _ _ _ => I) (fun _ _ _ _ => I) m tt w Hm I)
    as ([] & _ & Hk).
  unfold store_accounted, spawn. cbn [tasks].
  destruct (fst (exec m nobody_answers w)); [exact Hothers|exact Hothers|].
  constructor; [exact Hk|exact Hothers].
Qed.

Lemma reachable_store (s : Session) : reachable s -> store_accounted s.
Proof.
  induction 1 as [stored now|s s' _ IH Hturn]; [constructor|].
  destruct Hturn; try exact IH.
  - unfold press_uploadButton. destruct (uploadButton_disabled (ui (world s))); [exact IH|].
    apply spawn_store; [apply keeps_store_handlePickImage|exact IH].
  - unfold store_accounted in IH. rewrite H in IH.
    apply Forall_app in IH as [Hbefore Hafter].
    apply Forall_cons in Hafter as [[_ Htask] Hafter].
    apply spawn_store; [apply Htask|]. apply Forall_app. now split.
Qed.

(** X6: the durable store changes only by the write of an upload.  In
    every reachable session a turn leaves the store as it was, unless it
    is the turn in which the [AsyncStorage.setItem] that a suspended
    upload awaits resolves: then the record ["specter_history"], and no
    other, becomes the serialisation of the one-entry history of that
    upload. *)
Theorem store_changes_only_by_history_write (s s' : Session) :
  reachable s -> turn s s' ->
  storage (world s') = storage (world s) \/
  exists c k before after,
    is_result c /\
    tasks s = (before ++
               Suspended unit
                 (AsyncStorage_setItem "specter_history" (JSON_stringify (JArr [c]))) k
               :: after)%list /\
    storage (world s')
      = <["specter_history" := JSON_stringify (JArr [c])]> (storage (world s)).
Proof.
  intros Hs Hturn. pose proof (reachable_store s Hs) as Htasks. destruct Hturn.
  - left. unfold press_uploadButton.
    destruct (uploadButton_disabled (ui (world s))); [reflexivity|].
    apply exec_nobody_storage.
  - left. unfold press_historyChip. cbn [world].
    now destruct (history (ui (world s)) !! i).
  - left. apply interval_fires_only_progress.
  - left. unfold reset_fires. cbn [world]. now destruct (pending_resets (world s)).
  - now left.
  - unfold store_accounted in Htasks. rewrite H in Htasks.
    apply Forall_app in Htasks as [_ Hafter].
    apply Forall_cons in Hafter as [[Hwrites _] _].
    unfold resume, spawn. cbn [world]. rewrite exec_nobody_storage.
    destruct task as [R p k]. cbn [awaited awaited_type continuation] in *.
    destruct p; try (left; now destruct r).
    destruct r as [[]|e]; [|now left].
    destruct Hwrites as [-> (c & Hc & ->)].
    right. exists c, k, before, after. repeat split; assumption.
Qed.

(** X6 at the first press after the mount. *)
Lemma store_changes_only_by_history_write_first_press :
  storage (world (spawn (press_uploadButton nobody_answers fresh) [])) = storage fresh \/
  exists c k before after,
    is_result c /\
    [] = (before ++
          Suspended unit
            (AsyncStorage_setItem "specter_history" (JSON_stringify (JArr [c]))) k
          :: after)%list /\
    storage (world (spawn (press_uploadButton nobody_answers fresh) []))
      = <["specter_history" := JSON_stringify (JArr [c])]> (storage fresh).
Proof.
  exact (store_changes_only_by_history_write _ _ (reachable_mount ∅ noon)
           (turn_uploadButton {| world := fresh; tasks := [] |})).
Defined.

(** *** The pace of the progress *)

Lemma paced_handlePickImage : follows pace_discipline 90%Z (handlePickImage (uploadFile [])).
Proof.
  walk ltac:(cbn [mode allows after_effect promised after_await pace_discipline
                  bound_after]).
  all: lia.
Qed.

(** A handler that keeps the pace from bound [bound] leaves the progress
    as it was or at most [bound]. *)
Lemma exec_paced (m : Prog unit) (bound : Z) (w : World) :
  follows pace_discipline bound m ->
  (progress (ui (snd (exec m nobody_answers w))) = progress (ui w) \/
   (progress (ui (snd (exec m nobody_answers w))) <= bound)%Z) /\
  match fst (exec m nobody_answers w) with
  | Awaiting p k => forall r, follows pace_discipline (bound_after p r) (k r)
  | _ => True
  end.
Proof.
  intros Hm.
  destruct (exec_follows pace_discipline
              (fun q w' => q = bound /\
                           (progress (ui w') = progress (ui w) \/
                            (progress (ui w') <= bound)%Z))) with (m := m) (q := bound) (w := w)
    as (q' & [_ Hprogress] & Hk).
  - intros q eff w' Hallowed [-> Hw']. split; [reflexivity|].
    destruct eff; cbn in *; tauto.
  - intros q w' Hw'. exact Hw'.
  - intros q e w' Hw'. exact Hw'.
  - exact Hm.
  - split; [reflexivity|now left].
  - split; [exact Hprogress|].
    destruct (fst (exec m nobody_answers w)); try exact I. apply Hk.
Qed.

Lemma spawn_paced (m : Prog unit) (bound : Z) (w : World) (others : list Task) :
  follows pace_discipline bound m ->
  Forall (fun task =>
            forall r, follows pace_discipline (bound_after (awaited task) r)
                        (continuation task r)) others ->
  pace_accounted (spawn (exec m nobody_answers w) others).
Proof.
  intros Hm Hothers. destruct (exec_paced m bound w Hm) as [_ Hk].
  unfold pace_accounted, spawn. cbn [tasks].
  destruct (fst (exec m nobody_answers w)); [exact Hothers|exact Hothers|].
  constructor; [exact Hk|exact Hothers].
Qed.

Lemma reachable_paced (s : Session) : reachable s -> pace_accounted s.
Proof.
  induction 1 as [stored now|s s' _ IH Hturn]; [constructor|].
  destruct Hturn; try exact IH.
  - unfold press_uploadButton. destruct (uploadButton_disabled (ui (world s))); [exact IH|].
    apply (spawn_paced _ 90%Z); [apply paced_handlePickImage|exact IH].
  - unfold pace_accounted in IH. rewrite H in IH.
    apply Forall_app in IH as [Hbefore Hafter].
    apply Forall_cons in Hafter as [Htask Hafter].
    apply (spawn_paced _ (bound_after (awaited task) r)); [apply Htask|].
    apply Forall_app. now split.
Qed.

Lemma progress_settle {R} (p : Promise R) (r : R + JsError) (w : World) :
  progress (ui (settle p r w)) = progress (ui w).
Proof. now destruct p, r. Qed.

(** X12: the progress passes 90 only by the arrival of a response.  In
    every reachable session a turn leaves the progress at most 90, or as
    it was, unless it is the turn in which the [fetch] that a suspended
    upload awaits resolves with a response. *)
Theorem progress_passes_90_only_by_response (s s' : Session) :
  reachable s -> turn s s' ->
  (progress (ui (world s')) <= 90)%Z \/
  progress (ui (world s')) = progress (ui (world s)) \/
  exists url body k response before after,
    tasks s = (before ++ Suspended Response (fetch url body) k :: after)%list /\
    s' = spawn (resume (fetch url body) k (inl response) nobody_answers (world s))
           (before ++ after)%list.
Proof.
  intros Hs Hturn. pose proof (reachable_paced s Hs) as Htasks. destruct Hturn.
  - unfold press_uploadButton.
    destruct (uploadButton_disabled (ui (world s))); [right; left; reflexivity|].
    destruct (exec_paced (App_handlePickImage (ui (world s))) 90%Z (world s)
                paced_handlePickImage) as [[Hsame|Hbound] _]; [right; left|left]; assumption.
  - right; left. unfold press_historyChip. cbn [world].
    now destruct (history (ui (world s)) !! i).
  - cbn [world]. destruct (intervals (world s) !! interval) as [current|] eqn:Hrun.
    + left. rewrite (proj1 (interval_fires_running _ _ _ Hrun)). lia.
    + right; left. unfold interval_fires. now rewrite Hrun.
  - cbn [world]. unfold reset_fires.
    destruct (pending_resets (world s)); [right; left; reflexivity|left; cbn; lia].
  - right; left. reflexivity.
  - unfold pace_accounted in Htasks. rewrite H in Htasks.
    apply Forall_app in Htasks as [_ Hafter].
    apply Forall_cons in Hafter as [Htask _].
    destruct task as [R p k]. cbn [awaited awaited_type continuation] in *.
    assert (Hquiet : bound_after p r = 90%Z ->
              (progress (ui (world (spawn (resume p k r nobody_answers (world s))
                                      (before ++ after)))) <= 90)%Z \/
              progress (ui (world (spawn (resume p k r nobody_answers (world s))
                                     (before ++ after)))) = progress (ui (world s))).
    { intros Hbound. specialize (Htask r). rewrite Hbound in Htask.
      unfold resume, spawn. cbn [world].
      destruct (exec_paced (k r) 90%Z (settle p r (world s)) Htask) as [[Hsame|Hle] _].
      - right. now rewrite Hsame, progress_settle.
      - now left. }
    destruct p; try (destruct (Hquiet eq_refl); tauto).
    destruct r as [response|e]; [|destruct (Hquiet eq_refl); tauto].
    right; right. exists url, body, k, response, before, after. now split.
Qed.

(** X12 at the first press after the mount. *)
Lemma progress_passes_90_only_by_response_first_press :
  (progress (ui (world (spawn (press_uploadButton nobody_answers fresh) []))) <= 90)%Z \/
  progress (ui (world (spawn (press_uploadButton nobody_answers fresh) [])))
    = progress (ui fresh) \/
  exists url body k response before after,
    [] = (before ++ Suspended Response (fetch url body) k :: after)%list /\
    spawn (press_uploadButton nobody_answers fresh) []
      = spawn (resume (fetch url body) k (inl response) nobody_answers fresh)
          (before ++ after)%list.
Proof.
  exact (progress_passes_90_only_by_response _ _ (reachable_mount ∅ noon)
           (turn_uploadButton {| world := fresh; tasks := [] |})).
Defined.

(** *** One upload at a time (claim C4, amended) *)

Lemma flagged_handlePickImage (up : bool) :
  follows flag_discipline up (handlePickImage (uploadFile [])).
Proof.
  walk ltac:(cbn [mode allows after_effect promised after_await flag_discipline
                  awaits_upload_call]).
  all: first [discriminate|reflexivity].
Qed.

Lemma exec_flagged (m : Prog unit) (w : World) :
  follows flag_discipline (uploading (ui w)) m ->
  match fst (exec m nobody_answers w) with
  | Awaiting p k =>
      (awaits_upload_call p = true ->
       uploading (ui (snd (exec m nobody_answers w))) = true) /\
      forall r, follows flag_discipline (uploading (ui (snd (exec m nobody_answers w))))
                  (k r)
  | _ => True
  end.
Proof.
  intros Hm.
  destruct (exec_follows flag_discipline (fun up w' => uploading (ui w') = up))
    with (m := m) (q := uploading (ui w)) (w := w) as (up & Hup & Hk).
  - intros up eff w' _ <-. apply uploading_perform.
  - intros up w' Hw'. exact Hw'.
  - intros up e w' Hw'. exact Hw'.
  - exact Hm.
  - reflexivity.
  - destruct (fst (exec m nobody_answers w)); try exact I.
    rewrite Hup. exact Hk.
Qed.

Lemma handlePickImage_suspends (uploadFile0 : File -> Prog unit) (w : World) :
  exists k, exec (handlePickImage uploadFile0) nobody_answers w
            = (Awaiting requestMediaLibraryPermissionsAsync k,
               log (Called requestMediaLibraryPermissionsAsync)
                 (perform (setError JNull) w)).
Proof.
  unfold handlePickImage. step.
  rewrite (exec_Await_pending _ _ nobody_answers _ eq_refl). eexists. reflexivity.
Qed.

Lemma same_flag (w : World) (s : Session) :
  one_at_a_time s -> uploading (ui w) = uploading (ui (world s)) ->
  one_at_a_time {| world := w; tasks := tasks s |}.
Proof.
  intros [Hlen Htasks] Hflag. unfold one_at_a_time. cbn [world tasks].
  rewrite Hflag. now split.
Qed.

Lemma serial_one_at_a_time (s : Session) : serial s -> one_at_a_time s.
Proof.
  induction 1 as [stored now|s s' _ IH Hturn Hadds].
  - split; [cbn; lia|constructor].
  - destruct Hturn.
    + unfold press_uploadButton in *.
      destruct (uploadButton_disabled (ui (world s))).
      * apply same_flag; [exact IH|reflexivity].
      * pose proof (exec_flagged (App_handlePickImage (ui (world s))) (world s)
                      (flagged_handlePickImage _)) as Hrun.
        destruct (handlePickImage_suspends (App_uploadFile App_initial) (world s))
          as [k Hk].
        unfold App_handlePickImage, useCallback_no_deps in *.
        rewrite Hk in *. unfold spawn in *. cbn [fst snd world tasks] in *.
        destruct Hadds as [Hnone|Hlen]; [|cbn in Hlen; lia].
        rewrite Hnone. split; [cbn; lia|].
        constructor; [exact Hrun|constructor].
    + apply same_flag; [exact IH|]. unfold press_historyChip. cbn [world].
      now destruct (history (ui (world s)) !! i).
    + apply same_flag; [exact IH|]. apply interval_fires_only_progress.
    + apply same_flag; [exact IH|]. unfold reset_fires. cbn [world].
      now destruct (pending_resets (world s)).
    + apply same_flag; [exact IH|reflexivity].
    + destruct IH as [Hlen Htasks]. rewrite H in Hlen, Htasks.
      rewrite length_app in Hlen. cbn [length] in Hlen.
      destruct before as [|? ?]; [|cbn in Hlen; lia].
      destruct after as [|? ?]; [|cbn in Hlen; lia].
      apply Forall_cons in Htasks as [[_ Htask] _].
      unfold resume.
      pose proof (exec_flagged (continuation task r)
                    (settle (awaited task) r (world s))) as Hrun.
      rewrite uploading_settle in Hrun. specialize (Hrun (Htask r)).
      unfold one_at_a_time, spawn. cbn [world tasks app].
      destruct (fst (exec (continuation task r) nobody_answers
                       (settle (awaited task) r (world s)))).
      * split; [cbn; lia|constructor].
      * split; [cbn; lia|constructor].
      * split; [cbn; lia|]. constructor; [exact Hrun|constructor].
Qed.

Lemma reachable_settles (o : Oracle) (s : Session) (before : list Task) (task : Task)
    (after : list Task) (r : awaited_type task + JsError) :
  reachable s ->
  tasks s = (before ++ task :: after)%list ->
  reachable (spawn (exec (continuation task r) o (settle (awaited task) r (world s)))
               (before ++ after)%list).
Proof.
  intros Hs Htasks. apply reachable_answered.
  exact (reachable_turn _ _ Hs (turn_settles s before task after r Htasks)).
Qed.

(** Two presses before the first [setUploading(true)] start two uploads;
    when one of them has failed, the other still awaits its [fetch] with
    [uploading] cleared and the button enabled, and a further press
    issues a third [fetch]. *)
Lemma overlapping_uploads_reachable :
  exists s,
    reachable s /\
    uploading (ui (world s)) = false /\
    uploadButton_disabled (ui (world s)) = false /\
    Exists (fun task => awaits_upload_call (awaited task) = true) (tasks s) /\
    fetch_calls (journal (world s)) = 2 /\
    fetch_calls (journal (world (spawn (press_uploadButton still_pending (world s))
                                   (tasks s)))) = 3.
Proof.
  pose proof (reachable_press still_pending _
                (reachable_press nobody_answers _ (reachable_mount ∅ noon))) as Htwo.
  eexists. split.
  - refine (reachable_settles (network_fails (Error "offline")) _ [_]
              (Suspended Permission requestMediaLibraryPermissionsAsync _) []
              (inl {| granted := true |}) Htwo _).
    reflexivity.
  - split; [vm_compute; reflexivity|]. split; [vm_compute; reflexivity|].
    split; [|split; vm_compute; reflexivity].
    apply Exists_cons_hd. reflexivity.
Qed.

(** C4, amended: the guard is the upload button, not [uploadFile].  A call
    of [uploadFile] suspended at any of its awaits has left [uploading]
    set; while [uploading] is set the button is disabled, and a press on
    it changes nothing and issues no network call.  In a session in which
    no press reaches the handler while another handler is suspended, at
    most one handler is suspended at a time, and whenever it awaits one of
    the calls of an upload [uploading] is set, so that a press leaves the
    session as it is.  Without that proviso the guard has a gap: two
    presses made before the first [setUploading(true)] start two uploads,
    and once one of them has ended the other is in flight with the button
    enabled, where a press issues a further [fetch]. *)
Theorem C4_button_disabled_while_uploading :
  (forall (history : list JsValue) (file : File) (o : Oracle) (w w1 : World)
          (R : Type) (p : Promise R) (k : R + JsError -> Prog unit),
     exec (uploadFile history file) o w = (Awaiting p k, w1) ->
     uploading (ui w1) = true) /\
  (forall (o : Oracle) (w : World),
     uploading (ui w) = true ->
     press_uploadButton o w = (Returned tt, w) /\
     fetch_calls (journal (tap o w)) = fetch_calls (journal w)) /\
  (forall s : Session,
     serial s ->
     length (tasks s) <= 1 /\
     forall task,
       task ∈ tasks s ->
       awaits_upload_call (awaited task) = true ->
       uploading (ui (world s)) = true /\
       forall o, spawn (press_uploadButton o (world s)) (tasks s) = s) /\
  (exists s : Session,
     reachable s /\
     uploading (ui (world s)) = false /\
     uploadButton_disabled (ui (world s)) = false /\
     Exists (fun task => awaits_upload_call (awaited task) = true) (tasks s) /\
     fetch_calls (journal (world s)) = 2 /\
     fetch_calls (journal (world (spawn (press_uploadButton still_pending (world s))
                                    (tasks s)))) = 3).
Proof.
  split; [exact uploadFile_suspended_uploading|]. split; [|split].
  3: exact overlapping_uploads_reachable.
  - intros o w Hup. unfold tap, press_uploadButton, uploadButton_disabled.
    rewrite Hup. split; reflexivity.
  - intros s Hs. destruct (serial_one_at_a_time s Hs) as [Hlen Htasks].
    split; [exact Hlen|]. intros task Hin Hcall.
    rewrite Forall_forall in Htasks. destruct (Htasks task Hin) as [Hflag _].
    specialize (Hflag Hcall). split; [exact Hflag|].
    intros o. unfold press_uploadButton, uploadButton_disabled. rewrite Hflag.
    now destruct s.
Qed.

(** The amended C4 with an upload in flight on a fresh app. *)
Lemma C4_tap_in_flight :
  uploading (ui (tap still_pending fresh)) = true /\
  press_uploadButton still_pending (tap still_pending fresh)
    = (Returned tt, tap still_pending fresh).
Proof.
  assert (Hup : uploading (ui (tap still_pending fresh)) = true)
    by (vm_compute; reflexivity).
  split; [exact Hup|].
  exact (proj1 (proj1 (proj2 C4_button_disabled_while_uploading) still_pending _ Hup)).
Defined.
